(** * A shallow embedding of [src/raytracer.cpp]

    The renderer computes on IEEE-754 numbers: [float] is binary32 and the
    literals [1e-6], [0.299], ... are binary64 ([double]).  Both formats are
    carried by the Standard Library's [spec_float], with the operations of
    [SpecFloat] instantiated at (24,128) and (53,1024), rounding to nearest
    even.  Every arithmetic operator of the source is written at the
    precision the C++ conversion rules give it (a [float] operand next to a
    [double] literal is promoted, a [double] stored into a [float] is
    rounded); no contraction into fused multiply-adds is assumed. *)

From Stdlib Require Import ZArith NArith List Bool Lia String Ascii DecimalString.
From Stdlib Require Import Floats.SpecFloat.
Import ListNotations.
Local Open Scope Z_scope.

(** ** Floating point *)

Definition float := spec_float.
Definition double := spec_float.

Definition is_nan (x : spec_float) : bool :=
  match x with S754_nan => true | _ => false end.

Module F32.
Definition prec : Z := 24.
Definition emax : Z := 128.
Definition valid (x : float) : bool := valid_binary prec emax x.
Definition zero : float := S754_zero false.
Definition add : float -> float -> float := SFadd prec emax.
Definition sub : float -> float -> float := SFsub prec emax.
Definition mul : float -> float -> float := SFmul prec emax.
Definition div : float -> float -> float := SFdiv prec emax.
(** [sqrt] on a float: the correctly rounded root (the double-precision
    [sqrt] narrowed to float gives the same number). *)
Definition sqrt : float -> float := SFsqrt prec emax.
Definition opp : float -> float := SFopp.
Definition ltb : float -> float -> bool := SFltb.
Definition leb : float -> float -> bool := SFleb.
Definition eqb : float -> float -> bool := SFeqb.
(** C++ [a > b], [a >= b] and [a != b]. *)
Definition gtb (a b : float) : bool := SFltb b a.
Definition geb (a b : float) : bool := SFleb b a.
Definition neqb (a b : float) : bool := negb (SFeqb a b).
(** Conversion of an integer (an [int] literal, a [size_t]). *)
Definition of_Z (n : Z) : float := binary_normalize prec emax n 0 false.
(** Narrowing conversion [double -> float]. *)
Definition of_double (d : double) : float :=
  match d with
  | S754_finite s m e => binary_round prec emax s m e
  | _ => d
  end.
(** [std::numeric_limits<float>::max()]. *)
Definition max : float := SFmax_float prec emax.
End F32.

Module F64.
Definition prec : Z := 53.
Definition emax : Z := 1024.
Definition valid (x : double) : bool := valid_binary prec emax x.
Definition zero : double := S754_zero false.
Definition add : double -> double -> double := SFadd prec emax.
Definition sub : double -> double -> double := SFsub prec emax.
Definition mul : double -> double -> double := SFmul prec emax.
Definition div : double -> double -> double := SFdiv prec emax.
Definition opp : double -> double := SFopp.
Definition ltb : double -> double -> bool := SFltb.
Definition leb : double -> double -> bool := SFleb.
Definition gtb (a b : double) : bool := SFltb b a.
Definition of_Z (n : Z) : double := binary_normalize prec emax n 0 false.
(** Promotion [float -> double]; exact on every binary32 value. *)
Definition of_float (f : float) : double :=
  match f with
  | S754_finite s m e => binary_round prec emax s m e
  | _ => f
  end.
(** The decimal literal [num/den] (for [den] a power of ten): the correctly
    rounded quotient of two exactly represented integers. *)
Definition lit (num den : Z) : double := div (of_Z num) (of_Z den).
(** [std::min] and [std::max] on doubles, as <algorithm> defines them. *)
Definition min (a b : double) : double := if ltb b a then b else a.
Definition max (a b : double) : double := if ltb a b then b else a.
End F64.

Declare Scope f32_scope.
Delimit Scope f32_scope with f32.
Infix "+" := F32.add : f32_scope.
Infix "-" := F32.sub : f32_scope.
Infix "*" := F32.mul : f32_scope.
Infix "/" := F32.div : f32_scope.
Notation "- x" := (F32.opp x) : f32_scope.
Infix "<?" := F32.ltb : f32_scope.
Infix ">?" := F32.gtb : f32_scope.
Infix ">=?" := F32.geb : f32_scope.

Declare Scope f64_scope.
Delimit Scope f64_scope with f64.
Infix "+" := F64.add : f64_scope.
Infix "-" := F64.sub : f64_scope.
Infix "*" := F64.mul : f64_scope.
Infix "/" := F64.div : f64_scope.
Infix "<?" := F64.ltb : f64_scope.
Infix ">?" := F64.gtb : f64_scope.

(** ** struct Vec3 *)

Module Vec3.
Record t : Type := mk { x : float; y : float; z : float }.

Definition zero : t := mk F32.zero F32.zero F32.zero.

Definition length2 (v : t) : float :=
  (x v * x v + y v * y v + z v * z v)%f32.

Definition length (v : t) : float := F32.sqrt (length2 v).

(** [operator *(float s)]. *)
Definition scale (v : t) (s : float) : t :=
  mk (x v * s)%f32 (y v * s)%f32 (z v * s)%f32.

Definition add (a b : t) : t :=
  mk (x a + x b)%f32 (y a + y b)%f32 (z a + z b)%f32.

Definition sub (a b : t) : t :=
  mk (x a - x b)%f32 (y a - y b)%f32 (z a - z b)%f32.

Definition neg (a : t) : t := mk (- x a)%f32 (- y a)%f32 (- z a)%f32.

(** [l == 0] compares a float with the int 0; [1.0 / l] is a double
    division whose quotient is narrowed by the call of [operator *(float)]. *)
Definition normalize (v : t) : t :=
  let l := length v in
  if F32.eqb l F32.zero then v
  else scale v (F32.of_double (F64.of_Z 1 / F64.of_float l)%f64).

Definition dot (a b : t) : float :=
  (x a * x b + y a * y b + z a * z b)%f32.

Definition cross (a b : t) : t :=
  mk (y a * z b - z a * y b)%f32
     (z a * x b - x a * z b)%f32
     (x a * y b - y a * x b)%f32.

(** [v - normal * 2.0 * normal.dot(v)], the literal [2.0] narrowed to float. *)
Definition reflect (v normal : t) : t :=
  sub v (scale (scale normal (F32.of_double (F64.of_Z 2))) (dot normal v)).
End Vec3.

(** ** struct Color *)

Module Color.
Record t : Type := mk { r : float; g : float; b : float }.

(** [Color(float w)]. *)
Definition gray (w : float) : t := mk w w w.

(** The sum is computed in double and narrowed by the [float] return. *)
Definition brightness (c : t) : float :=
  F32.of_double
    (F64.lit 299 1000 * F64.of_float (r c)
     + F64.lit 587 1000 * F64.of_float (g c)
     + F64.lit 114 1000 * F64.of_float (b c))%f64.

Definition scale (c : t) (s : float) : t :=
  mk (r c * s)%f32 (g c * s)%f32 (b c * s)%f32.

Definition mul (c o : t) : t :=
  mk (r c * r o)%f32 (g c * g o)%f32 (b c * b o)%f32.

Definition div (c o : t) : t :=
  mk (r c / r o)%f32 (g c / g o)%f32 (b c / b o)%f32.

Definition add (c o : t) : t :=
  mk (r c + r o)%f32 (g c + g o)%f32 (b c + b o)%f32.

Definition sub (c o : t) : t :=
  mk (r c - r o)%f32 (g c - g o)%f32 (b c - b o)%f32.
End Color.

(** ** Materials, lights and hits *)

(** A shape holds a [Material *]; nothing writes through it and materials
    outlive the scene, so the pointee stands for the pointer. *)
Record Material : Type := mkMaterial {
  albedo : Color.t;
  reflectivity : float
}.

Record PointLight : Type := mkPointLight {
  light_position : Vec3.t;
  power : float;
  light_color : Color.t
}.

Record Intersection : Type := mkIntersection {
  distance : float;
  position : Vec3.t;
  normal : Vec3.t;
  material : Material
}.

(** ** struct Plane *)

Module Plane.
Record t : Type := mk { material : Material; origin : Vec3.t; normal : Vec3.t }.

Definition intersect (p : t) (ray_origin ray_direction : Vec3.t)
  : option Intersection :=
  let denom := (- Vec3.dot (normal p) ray_direction)%f32 in
  if (F64.of_float denom >? F64.lit 1 1000000)%f64 then
    let p0l0 := Vec3.sub (origin p) ray_origin in
    let t := (- Vec3.dot p0l0 (normal p) / denom)%f32 in
    if (t >=? F32.zero)%f32 then
      Some (mkIntersection t
              (Vec3.add ray_origin (Vec3.scale ray_direction t))
              (normal p)
              (material p))
    else None
  else None.
End Plane.

(** ** struct Sphere *)

Module Sphere.
Record t : Type := mk { material : Material; center : Vec3.t; radius : float }.

(** [t0] and [t1] after the conditional [std::swap]. *)
Definition roots (tca thc : float) : float * float :=
  let t0 := (tca - thc)%f32 in
  let t1 := (tca + thc)%f32 in
  if (t0 >? t1)%f32 then (t1, t0) else (t0, t1).

Definition intersect (s : t) (ray_origin ray_direction : Vec3.t)
  : option Intersection :=
  let radius2 := (radius s * radius s)%f32 in
  let L := Vec3.sub (center s) ray_origin in
  let tca := Vec3.dot L ray_direction in
  let d2 := (Vec3.dot L L - tca * tca)%f32 in
  if (d2 >? radius2)%f32 then None
  else
    let thc := F32.sqrt (radius2 - d2)%f32 in
    let '(t0, t1) := roots tca thc in
    let hit (t0 : float) :=
      Some (mkIntersection t0
              (Vec3.add ray_origin (Vec3.scale ray_direction t0))
              (Vec3.normalize
                 (Vec3.sub (Vec3.add ray_origin (Vec3.scale ray_direction t0))
                           (center s)))
              (material s)) in
    if (t0 <? F32.zero)%f32 then
      let t0 := t1 in
      if (t0 <? F32.zero)%f32 then None else hit t0
    else hit t0.
End Sphere.

(** [using Object = std::variant<Plane, Sphere>]. *)
Inductive Object : Type :=
| OPlane (p : Plane.t)
| OSphere (s : Sphere.t).

(** The [std::visit] of [Scene::intersect]. *)
Definition Object_intersect (obj : Object) (ray_origin ray_direction : Vec3.t)
  : option Intersection :=
  match obj with
  | OPlane p => Plane.intersect p ray_origin ray_direction
  | OSphere s => Sphere.intersect s ray_origin ray_direction
  end.

(** ** struct Scene *)

(** [size_t]: 64-bit unsigned arithmetic, wrap-around written out. *)
Definition size_max : N := 2 ^ 64.
Definition size_sub (a b : N) : N := ((a + (size_max - b mod size_max)) mod size_max)%N.
Definition size_add (a b : N) : N := ((a + b) mod size_max)%N.
Definition size_mul (a b : N) : N := ((a * b) mod size_max)%N.

(** The result of a run bounded by a call-depth allowance. *)
Inductive outcome (A : Type) : Type :=
| OutOfFuel
| Returned (a : A).
Arguments OutOfFuel {A}.
Arguments Returned {A} a.

Module Scene.
Record t : Type := mk { objects : list Object; lights : list PointLight }.

(** [Intersection final_hit;] default-constructs the two vectors and leaves
    the material pointer indeterminate; [indeterminate_material] stands for
    whatever it points to.  [final_hit] is returned only after a hit was
    copied over it ([initial_hit_irrelevant] below). *)
Definition indeterminate_material : Material :=
  mkMaterial (Color.gray F32.zero) F32.zero.

Definition initial_hit (m : Material) : Intersection :=
  mkIntersection F32.max Vec3.zero Vec3.zero m.

(** One iteration of the loop over [objects]. *)
Definition visit (ray_origin ray_direction : Vec3.t)
  (final_hit : Intersection) (obj : Object) : Intersection :=
  match Object_intersect obj ray_origin ray_direction with
  | Some hit =>
      if (distance hit <? distance final_hit)%f32 then hit else final_hit
  | None => final_hit
  end.

Definition intersect_from (final_hit0 : Intersection) (s : t)
  (ray_origin ray_direction : Vec3.t) : option Intersection :=
  let final_hit := fold_left (visit ray_origin ray_direction) (objects s) final_hit0 in
  if F32.neqb (distance final_hit) F32.max then Some final_hit else None.

Definition intersect (s : t) (ray_origin ray_direction : Vec3.t)
  : option Intersection :=
  intersect_from (initial_hit indeterminate_material) s ray_origin ray_direction.

Definition max_recursion : N := 10.

(** [Color lighting { 0.1 }]. *)
Definition ambient : Color.t := Color.gray (F32.of_double (F64.lit 1 10)).

(** The test that makes the loop over [lights] [continue]. *)
Definition obstructed (s : t) (hit_position : Vec3.t) (light : PointLight) : bool :=
  let light_delta := Vec3.sub hit_position (light_position light) in
  let distance_to_light := Vec3.length light_delta in
  match intersect s (light_position light) (Vec3.normalize light_delta) with
  | Some hit =>
      (F64.of_float (distance hit)
       <? F64.of_float distance_to_light - F64.lit 1 1000)%f64
  | None => false
  end.

(** One iteration of the loop over [lights]. *)
Definition light_step (s : t) (hit_position : Vec3.t)
  (lighting : Color.t) (light : PointLight) : Color.t :=
  let light_delta := Vec3.sub hit_position (light_position light) in
  let distance_to_light := Vec3.length light_delta in
  if obstructed s hit_position light then lighting
  else
    let attenuation := (power light / distance_to_light)%f32 in
    Color.add lighting (Color.scale (light_color light) attenuation).

(** [surface_albedo] after the block guarded by [brightness() > 0.0]. *)
Definition lit_albedo (s : t) (intersection : Intersection) : Color.t :=
  let surface_albedo := albedo (material intersection) in
  if (F64.of_float (Color.brightness surface_albedo) >? F64.zero)%f64 then
    let lighting :=
      fold_left (light_step s (position intersection)) (lights s) ambient in
    Color.mul surface_albedo lighting
  else surface_albedo.

(** [trace], with a call-depth allowance [fuel]: every activation, the
    first one included, takes one unit, and [OutOfFuel] is the answer of an
    activation that has none.  [recursion] is the source's [size_t]
    parameter. *)
Fixpoint trace (fuel : nat) (s : t) (ray_origin ray_direction : Vec3.t)
  (recursion : N) {struct fuel} : outcome (option Color.t) :=
  match fuel with
  | O => OutOfFuel
  | S fuel' =>
      match intersect s ray_origin ray_direction with
      | None => Returned None
      | Some intersection =>
          let surface_mtl := material intersection in
          let surface_albedo := lit_albedo s intersection in
          let surface_reflection := Color.gray (F32.of_double F64.zero) in
          if (0 <? recursion)%N
             && (F64.of_float (reflectivity surface_mtl) >? F64.zero)%f64
          then
            let refl_dir := Vec3.reflect ray_direction (normal intersection) in
            let refl_origin :=
              Vec3.add (position intersection)
                       (Vec3.scale refl_dir (F32.of_double (F64.lit 1 10000))) in
            match trace fuel' s refl_origin refl_dir (size_sub recursion 1) with
            | OutOfFuel => OutOfFuel
            | Returned (Some hit) =>
                Returned (Some (Color.add surface_albedo hit))
            | Returned None =>
                Returned (Some (Color.add surface_albedo surface_reflection))
            end
          else Returned (Some (Color.add surface_albedo surface_reflection))
      end
  end.

(** The activation [trace(o, d, r)] makes the recursive call
    [trace(o', d', r')]. *)
Inductive calls (s : t) : Vec3.t * Vec3.t * N -> Vec3.t * Vec3.t * N -> Prop :=
| calls_reflection ray_origin ray_direction recursion intersection :
    intersect s ray_origin ray_direction = Some intersection ->
    (0 < recursion)%N ->
    (F64.of_float (reflectivity (material intersection)) >? F64.zero)%f64 = true ->
    let refl_dir := Vec3.reflect ray_direction (normal intersection) in
    let refl_origin :=
      Vec3.add (position intersection)
               (Vec3.scale refl_dir (F32.of_double (F64.lit 1 10000))) in
    calls s (ray_origin, ray_direction, recursion)
            (refl_origin, refl_dir, size_sub recursion 1).
End Scene.

(** ** The file system the program writes to *)

(** What [save] can observe of its environment: whether [fopen(name, "wb")]
    succeeds, how many more bytes the device accepts before a write comes
    up short, and the bytes each file holds. *)
Record FileSystem : Type := mkFileSystem {
  writable : string -> bool;
  space : nat;
  contents : string -> option string
}.

(** A [FILE *]: the path the stream was opened on. *)
Definition FILE : Type := string.

Definition put_file (name data : string) (fs : FileSystem) : FileSystem :=
  mkFileSystem (writable fs) (space fs)
    (fun n => if String.eqb n name then Some data else contents fs n).

(** [fopen(name, "wb")]: [None] is the null pointer; success truncates. *)
Definition fopen_wb (name : string) (fs : FileSystem) : option FILE * FileSystem :=
  if writable fs name then (Some name, put_file name EmptyString fs)
  else (None, fs).

(** Appends as much of [data] as the device accepts; the boolean tells whether
    all of it was written (what the return values of [fprintf] and [fwrite]
    report). *)
Definition write_bytes (f : FILE) (data : string) (fs : FileSystem)
  : bool * FileSystem :=
  let n := String.length data in
  let old := match contents fs f with Some s => s | None => EmptyString end in
  if Nat.leb n (space fs) then
    (true,
     mkFileSystem (writable fs) (space fs - n)
       (fun k => if String.eqb k f then Some (old ++ data)%string else contents fs k))
  else
    (false,
     mkFileSystem (writable fs) 0
       (fun k => if String.eqb k f
                 then Some (old ++ substring 0 (space fs) data)%string
                 else contents fs k)).

(** ** struct Image *)

(** [uint8_t(d)] for a double: truncation toward zero, then the low byte
    (out of the range of [int] the conversion is undefined; [save] clamps to
    0..255 first). *)
Definition uint8_of_double (d : double) : N :=
  match d with
  | S754_finite s m e =>
      let v := if (0 <=? e)%Z then Z.shiftl (Zpos m) e else Z.shiftr (Zpos m) (- e) in
      Z.to_N ((if s then - v else v) mod 256)
  | _ => 0%N
  end.

Definition newline : string := String (ascii_of_nat 10) EmptyString.

Module Image.
Record t : Type := mk { width : N; height : N; pixels : list Color.t }.

(** [pixels(width * height)]: value-initialised colours, through [Color()]. *)
Definition new (w h : N) : t :=
  mk w h (repeat (Color.gray (F32.of_double F64.zero)) (N.to_nat (size_mul w h))).

Definition clear (img : t) (color : Color.t) : t :=
  mk (width img) (height img) (map (fun _ => color) (pixels img)).

Definition apply (f : Color.t -> Color.t) (img : t) : t :=
  mk (width img) (height img) (map f (pixels img)).

(** [pixels[i] = c]; [operator[]] past the end is undefined in the source,
    here it leaves the vector as it is. *)
Fixpoint update (l : list Color.t) (i : nat) (c : Color.t) : list Color.t :=
  match l, i with
  | [], _ => []
  | _ :: l', O => c :: l'
  | a :: l', S i' => a :: update l' i' c
  end.

Definition get (img : t) (x y : N) : Color.t :=
  nth (N.to_nat (size_add (size_mul y (width img)) x)) (pixels img)
      (Color.gray F32.zero).

Definition set (img : t) (x y : N) (color : Color.t) : t :=
  mk (width img) (height img)
     (update (pixels img) (N.to_nat (size_add (size_mul y (width img)) x)) color).

(** One element of [binary]. *)
Definition channel (c : float) : ascii :=
  ascii_of_N
    (uint8_of_double
       (F64.max F64.zero (F64.min (F64.of_Z 255) (F64.of_Z 255 * F64.of_float c)%f64))).

Definition binary (c : Color.t) : string :=
  String (channel (Color.r c))
    (String (channel (Color.g c)) (String (channel (Color.b c)) EmptyString)).

(** The header [fprintf] writes. *)
Definition header (img : t) : string :=
  ("P6 " ++ NilZero.string_of_uint (N.to_uint (width img)) ++ " "
   ++ NilZero.string_of_uint (N.to_uint (height img)) ++ " 255" ++ newline)%string.

(** [save], as a transformer of the image it is called on and of the file
    system; the results of [fprintf], [fwrite] and [fclose] are dropped, as
    in the source. *)
Definition save (file_name : string) (st : t * FileSystem)
  : bool * (t * FileSystem) :=
  let '(img, fs) := st in
  match fopen_wb file_name fs with
  | (None, fs) => (false, (img, fs))
  | (Some f, fs) =>
      let fs := snd (write_bytes f (header img) fs) in
      let fs :=
        fold_left (fun fs c => snd (write_bytes f (binary c) fs)) (pixels img) fs in
      (true, (img, fs))
  end.
End Image.

(** ** struct Camera *)

Module Camera.
Record t : Type := mk {
  position : Vec3.t;
  forward : Vec3.t;
  right : Vec3.t;
  focal_length : float
}.

(** [Camera camera;]. *)
Definition default : t := mk Vec3.zero Vec3.zero Vec3.zero (F32.of_double (F64.of_Z 1)).

Definition lookAt (c : t) (pos dest up : Vec3.t) : t :=
  let fwd := Vec3.normalize (Vec3.sub dest pos) in
  mk pos fwd (Vec3.normalize (Vec3.cross up fwd)) (focal_length c).

Definition projectRay (c : t) (x y : float) : Vec3.t :=
  Vec3.normalize
    (Vec3.add
       (Vec3.add (Vec3.scale (right c) x)
                 (Vec3.scale (Vec3.cross (forward c) (right c)) y))
       (Vec3.scale (forward c) (focal_length c))).
End Camera.

(** ** main *)

Definition vec3 (a b c : Z) : Vec3.t := Vec3.mk (F32.of_Z a) (F32.of_Z b) (F32.of_Z c).

Definition left_plane : Material :=
  mkMaterial (Color.mk (F32.of_Z 1) (F32.of_Z 0) (F32.of_Z 0)) (F32.of_double F64.zero).
Definition right_plane : Material :=
  mkMaterial (Color.mk (F32.of_Z 0) (F32.of_Z 1) (F32.of_Z 0)) (F32.of_double F64.zero).
Definition other_plane : Material :=
  mkMaterial (Color.gray (F32.of_double (F64.lit 8 10))) (F32.of_double F64.zero).
Definition mirror_sphere : Material :=
  mkMaterial (Color.gray (F32.of_double F64.zero)) (F32.of_double (F64.of_Z 1)).

Definition reference_scene : Scene.t :=
  Scene.mk
    [ OPlane (Plane.mk left_plane (vec3 (-10) 0 0) (vec3 1 0 0));
      OPlane (Plane.mk right_plane (vec3 10 0 0) (vec3 (-1) 0 0));
      OPlane (Plane.mk other_plane (vec3 0 (-10) 0) (vec3 0 1 0));
      OPlane (Plane.mk other_plane (vec3 0 10 0) (vec3 0 (-1) 0));
      OPlane (Plane.mk other_plane (vec3 0 0 10) (vec3 0 0 (-1)));
      OSphere (Sphere.mk mirror_sphere (vec3 0 (-5) (-5)) (F32.of_double (F64.of_Z 2)));
      OSphere (Sphere.mk mirror_sphere
                 (Vec3.mk (F32.of_double (F64.lit 433 100)) (F32.of_Z (-4))
                          (F32.of_double (F64.lit 25 10)))
                 (F32.of_double (F64.of_Z 2)));
      OSphere (Sphere.mk mirror_sphere
                 (Vec3.mk (F32.of_double (F64.opp (F64.lit 433 100)))
                          (F32.of_double (F64.opp (F64.lit 45 10)))
                          (F32.of_double (F64.lit 25 10)))
                 (F32.of_double (F64.of_Z 2))) ]
    [ mkPointLight (vec3 0 0 0) (F32.of_Z 10)
        (Color.mk (F32.of_Z 1) (F32.of_Z 1) (F32.of_Z 1)) ].

Definition reference_camera : Camera.t :=
  Camera.lookAt Camera.default (vec3 0 0 (-10)) (vec3 0 0 0) (vec3 0 1 0).

(** [for (size_t i = 0; i < n; i++) body]. *)
Definition for_range {S : Type} (n : N) (body : N -> S -> S) (s : S) : S :=
  fold_left (fun st i => body (N.of_nat i) st) (seq 0 (N.to_nat n)) s.

(** The body of the inner loop of [main]. *)
Definition render_pixel (scene : Scene.t) (camera : Camera.t) (x y : N)
  (target : Image.t) : Image.t :=
  let ss_x :=
    F32.of_double
      (F64.of_Z 2 * F64.of_float (F32.of_Z (Z.of_N x))
       / F64.of_float (F32.of_Z (Z.of_N (size_sub (Image.width target) 1)))
       - F64.of_Z 1)%f64 in
  let ss_y :=
    F32.of_double
      (F64.of_Z 1
       - F64.of_Z 2 * F64.of_float (F32.of_Z (Z.of_N y))
         / F64.of_float (F32.of_Z (Z.of_N (size_sub (Image.height target) 1))))%f64 in
  let ray_origin := Camera.position camera in
  let ray_direction := Camera.projectRay camera ss_x ss_y in
  (* the default argument [recursion = max_recursion]; the allowance is one
     more than any depth [trace] reaches from there *)
  match Scene.trace 11 scene ray_origin ray_direction Scene.max_recursion with
  | Returned (Some color) => Image.set target x y color
  | _ => Image.set target x y (Color.gray (F32.of_Z 0))
  end.

Definition render (scene : Scene.t) (camera : Camera.t) (target : Image.t) : Image.t :=
  for_range (Image.height target)
    (fun y => for_range (Image.width target) (fun x => render_pixel scene camera x y)) target.

Section Program.
(** [powf] of the C library, which the model does not compute. *)
Variable powf : float -> float -> float.

Definition gamma_correct (c : Color.t) : Color.t :=
  let gamma := F32.of_double (F64.lit 22 10) in
  Color.mk (powf (Color.r c) (F32.of_Z 1 / gamma)%f32)
           (powf (Color.g c) (F32.of_Z 1 / gamma)%f32)
           (powf (Color.b c) (F32.of_Z 1 / gamma)%f32).

(** [target] when [save] is called. *)
Definition rendered : Image.t :=
  let target := Image.new 512 512 in
  let target := Image.clear target (Color.mk (F32.of_Z 0) (F32.of_Z 0) (F32.of_Z 0)) in
  let target := render reference_scene reference_camera target in
  Image.apply gamma_correct target.

(** [main]: the exit status and the file system it leaves. *)
Definition main (fs : FileSystem) : Z * FileSystem :=
  let '(_, (_, fs)) := Image.save "output.pgm" (rendered, fs) in
  (0, fs).
End Program.

(** * Specification-side definitions and sample inputs *)

(** ** Scene::intersect *)

(** No hit reported by a shape of [l] satisfies [P] against distance [d]. *)
Definition none_hit (ray_origin ray_direction : Vec3.t)
  (P : float -> float -> bool) (d : float) (l : list Object) : Prop :=
  Forall (fun obj =>
            forall h, Object_intersect obj ray_origin ray_direction = Some h ->
                      P (distance h) d = false) l.

(** What the loop has established after the shapes of [l]: [cur] is still
    the initial record and nothing below its distance was seen, or [cur] is
    the hit of a shape of [l] that beats every earlier hit strictly and is
    beaten by no later one. *)
Definition scanned (ray_origin ray_direction : Vec3.t)
  (init cur : Intersection) (l : list Object) : Prop :=
  (cur = init /\ none_hit ray_origin ray_direction F32.ltb (distance init) l)
  \/ (exists l1 obj l2,
        l = l1 ++ obj :: l2
        /\ Object_intersect obj ray_origin ray_direction = Some cur
        /\ F32.ltb (distance cur) (distance init) = true
        /\ none_hit ray_origin ray_direction F32.leb (distance cur) l1
        /\ none_hit ray_origin ray_direction F32.ltb (distance cur) l2).


(** A scene of one plane whose only hit along the ray from the origin down
    [+z] lies at distance [FLT_MAX]. *)
Definition far_plane : Plane.t :=
  Plane.mk other_plane (Vec3.mk F32.zero F32.zero F32.max) (vec3 0 0 (-1)).
Definition far_scene : Scene.t := Scene.mk [OPlane far_plane] [].

(** ** Invariants of intersections *)

(** [v.length()] is 1 within a tolerance of one thousandth:
    [0.999 <= v.length() <= 1.001]. *)
Definition unit_length (v : Vec3.t) : Prop :=
  F64.leb (F64.lit 999 1000) (F64.of_float (Vec3.length v)) = true
  /\ F64.leb (F64.of_float (Vec3.length v)) (F64.lit 1001 1000) = true.


(** [position == ray_origin + ray_direction * distance]. *)
Definition on_ray (ray_origin ray_direction : Vec3.t) (h : Intersection) : Prop :=
  position h = Vec3.add ray_origin (Vec3.scale ray_direction (distance h)).


(** The sphere of radius 2 about the origin, and a ray towards it that
    starts at (1, 1, -10) and runs along [+z]. *)
Definition sample_sphere : Sphere.t :=
  Sphere.mk mirror_sphere (vec3 0 0 0) (F32.of_Z 2).


(** ** The shapes' intersection tests, in the words of the specification *)

(** The hit a plane reports at parameter [t]. *)
Definition plane_hit_at (p : Plane.t) (ray_origin ray_direction : Vec3.t) (t : float)
  : Intersection :=
  mkIntersection t (Vec3.add ray_origin (Vec3.scale ray_direction t))
    (Plane.normal p) (Plane.material p).

(** "[denom = -normal.direction]; if [denom <= 1e-6] report no hit.
    Otherwise compute [t] from [origin_to_plane . normal] and [denom];
    report a hit only if [t >= 0]."  [numerator] is what stands above
    [denom] in the quotient, as a function of [origin_to_plane . normal]. *)
Definition plane_rule (numerator : float -> float) (p : Plane.t)
  (ray_origin ray_direction : Vec3.t) : option Intersection :=
  let denom := (- Vec3.dot (Plane.normal p) ray_direction)%f32 in
  if F64.leb (F64.of_float denom) (F64.lit 1 1000000) then None
  else
    let origin_to_plane := Vec3.sub (Plane.origin p) ray_origin in
    let t := (numerator (Vec3.dot origin_to_plane (Plane.normal p)) / denom)%f32 in
    if F32.leb F32.zero t then Some (plane_hit_at p ray_origin ray_direction t)
    else None.

(** The hit a sphere reports at parameter [t]. *)
Definition sphere_hit_at (s : Sphere.t) (ray_origin ray_direction : Vec3.t) (t : float)
  : Intersection :=
  let hit_position := Vec3.add ray_origin (Vec3.scale ray_direction t) in
  mkIntersection t hit_position
    (Vec3.normalize (Vec3.sub hit_position (Sphere.center s)))
    (Sphere.material s).

(** Two numbers in increasing order. *)
Definition increasing (a b : float) : float * float :=
  if F32.ltb b a then (b, a) else (a, b).

(** [d2], and the two roots [tca - thc] and [tca + thc] in increasing
    order. *)
Definition sphere_d2 (s : Sphere.t) (ray_origin ray_direction : Vec3.t) : float :=
  let L := Vec3.sub (Sphere.center s) ray_origin in
  let tca := Vec3.dot L ray_direction in
  (Vec3.dot L L - tca * tca)%f32.

Definition sphere_roots (s : Sphere.t) (ray_origin ray_direction : Vec3.t)
  : float * float :=
  let radius2 := (Sphere.radius s * Sphere.radius s)%f32 in
  let L := Vec3.sub (Sphere.center s) ray_origin in
  let tca := Vec3.dot L ray_direction in
  let thc := F32.sqrt (radius2 - sphere_d2 s ray_origin ray_direction)%f32 in
  increasing (tca - thc)%f32 (tca + thc)%f32.

(** "If [d2 > radius^2] report no hit.  Otherwise the distance is [t0] if
    [t0] is usable, else [t1] if [t1] is usable, else there is no hit."
    [usable] is the test a root has to pass. *)
Definition sphere_rule (usable : float -> bool) (s : Sphere.t)
  (ray_origin ray_direction : Vec3.t) : option Intersection :=
  let radius2 := (Sphere.radius s * Sphere.radius s)%f32 in
  if (sphere_d2 s ray_origin ray_direction >? radius2)%f32 then None
  else
    let '(t0, t1) := sphere_roots s ray_origin ray_direction in
    if usable t0 then Some (sphere_hit_at s ray_origin ray_direction t0)
    else if usable t1 then Some (sphere_hit_at s ray_origin ray_direction t1)
    else None.

(** The unit sphere about ([FLT_MAX], 0, 0), for the ray that starts at
    (-[FLT_MAX], 0, 0): the difference of the two abscissas is not a float. *)
Definition distant_sphere : Sphere.t :=
  Sphere.mk mirror_sphere (Vec3.mk F32.max F32.zero F32.zero) (F32.of_Z 1).
Definition distant_origin : Vec3.t := Vec3.mk (F32.opp F32.max) F32.zero F32.zero.

(** The back wall of the reference scene. *)
Definition back_wall : Plane.t :=
  Plane.mk other_plane (vec3 0 0 10) (vec3 0 0 (-1)).

(** ** Reflectivity *)

(** The only test [trace] makes on a material's reflectivity. *)
Definition reflects (m : Material) : bool :=
  (F64.of_float (reflectivity m) >? F64.zero)%f64.

(** Two materials with the same albedo whose reflectivities pass or fail
    that test together. *)
Definition same_gate (m1 m2 : Material) : Prop :=
  albedo m1 = albedo m2 /\ reflects m1 = reflects m2.

Definition same_shape (o1 o2 : Object) : Prop :=
  match o1, o2 with
  | OPlane p1, OPlane p2 =>
      Plane.origin p1 = Plane.origin p2
      /\ Plane.normal p1 = Plane.normal p2
      /\ same_gate (Plane.material p1) (Plane.material p2)
  | OSphere s1, OSphere s2 =>
      Sphere.center s1 = Sphere.center s2
      /\ Sphere.radius s1 = Sphere.radius s2
      /\ same_gate (Sphere.material s1) (Sphere.material s2)
  | _, _ => False
  end.

(** Scenes that differ in the reflectivity values of their materials only,
    and nowhere across zero. *)
Definition same_scene (s1 s2 : Scene.t) : Prop :=
  Forall2 same_shape (Scene.objects s1) (Scene.objects s2)
  /\ Scene.lights s1 = Scene.lights s2.

Definition same_hit (h1 h2 : Intersection) : Prop :=
  distance h1 = distance h2
  /\ position h1 = position h2
  /\ normal h1 = normal h2
  /\ same_gate (material h1) (material h2).

Definition same_result (r1 r2 : option Intersection) : Prop :=
  match r1, r2 with
  | Some h1, Some h2 => same_hit h1 h2
  | None, None => True
  | _, _ => False
  end.

(** The reference scene with the spheres' material given reflectivity [k]. *)
Definition sphere_scene (k : float) : Scene.t :=
  let mtl := mkMaterial (albedo mirror_sphere) k in
  Scene.mk
    (map (fun obj =>
            match obj with
            | OSphere s => OSphere (Sphere.mk mtl (Sphere.center s) (Sphere.radius s))
            | OPlane p => OPlane p
            end)
         (Scene.objects reference_scene))
    (Scene.lights reference_scene).

(** A ray from the camera that meets the first sphere. *)
Definition sphere_ray : Vec3.t := Vec3.normalize (vec3 0 (-5) 5).

(** ** Lighting, in the words of the specification *)

(** [d]: the distance from the hit position to the light. *)
Definition light_distance (hit_position : Vec3.t) (light : PointLight) : float :=
  Vec3.length (Vec3.sub hit_position (light_position light)).

(** The nearest scene hit along the shadow ray, which starts at the light
    and points toward the hit position. *)
Definition shadow_hit (s : Scene.t) (hit_position : Vec3.t) (light : PointLight)
  : option Intersection :=
  Scene.intersect s (light_position light)
    (Vec3.normalize (Vec3.sub hit_position (light_position light))).

(** "The nearest hit along that ray is closer than [d - 1e-3]." *)
Definition occluded (s : Scene.t) (hit_position : Vec3.t) (light : PointLight) : bool :=
  match shadow_hit s hit_position light with
  | Some h =>
      F64.ltb (F64.of_float (distance h))
        (F64.of_float (light_distance hit_position light) - F64.lit 1 1000)%f64
  | None => false
  end.

(** [light.color * (light.power / d)]. *)
Definition light_term (hit_position : Vec3.t) (light : PointLight) : Color.t :=
  Color.scale (light_color light)
    (power light / light_distance hit_position light)%f32.

(** The lighting accumulator after the lights [l], started at [acc]. *)
Definition accumulate (s : Scene.t) (hit_position : Vec3.t)
  (l : list PointLight) (acc : Color.t) : Color.t :=
  fold_left
    (fun acc light =>
       if occluded s hit_position light then acc
       else Color.add acc (light_term hit_position light))
    l acc.

(** [brightness() > 0.0]: the hit is one [trace] computes lighting for. *)
Definition shaded (h : Intersection) : bool :=
  (F64.of_float (Color.brightness (albedo (material h))) >? F64.zero)%f64.

(** The albedo as [trace] lights it: times the lighting accumulator where
    the hit is shaded, untouched where it is not. *)
Definition lit_color (s : Scene.t) (h : Intersection) : Color.t :=
  if shaded h then
    Color.mul (albedo (material h))
      (accumulate s (position h) (Scene.lights s) Scene.ambient)
  else albedo (material h).

(** The reflected ray of a hit. *)
Definition reflected_direction (ray_direction : Vec3.t) (h : Intersection) : Vec3.t :=
  Vec3.reflect ray_direction (normal h).
Definition reflected_origin (ray_direction : Vec3.t) (h : Intersection) : Vec3.t :=
  Vec3.add (position h)
    (Vec3.scale (reflected_direction ray_direction h) (F32.of_double (F64.lit 1 10000))).

(** What the reflection contributes at a hit: the colour traced along the
    reflected ray with the budget lowered by one, when the budget is
    positive, the reflectivity above zero and that ray hits something;
    black in every other case. *)
Definition reflection_term (fuel : nat) (s : Scene.t) (ray_direction : Vec3.t)
  (recursion : N) (h : Intersection) : Color.t :=
  if (0 <? recursion)%N && reflects (material h) then
    match Scene.trace fuel s (reflected_origin ray_direction h)
            (reflected_direction ray_direction h) (size_sub recursion 1) with
    | Returned (Some color) => color
    | _ => Color.gray F32.zero
    end
  else Color.gray F32.zero.

(** ** The variant of [trace] that always multiplies by the lighting *)

Definition lit_albedo_unconditional (s : Scene.t) (intersection : Intersection)
  : Color.t :=
  Color.mul (albedo (material intersection))
    (fold_left (Scene.light_step s (position intersection)) (Scene.lights s)
       Scene.ambient).

Fixpoint trace_unconditional (fuel : nat) (s : Scene.t)
  (ray_origin ray_direction : Vec3.t) (recursion : N) {struct fuel}
  : outcome (option Color.t) :=
  match fuel with
  | O => OutOfFuel
  | S fuel' =>
      match Scene.intersect s ray_origin ray_direction with
      | None => Returned None
      | Some intersection =>
          let surface_mtl := material intersection in
          let surface_albedo := lit_albedo_unconditional s intersection in
          let surface_reflection := Color.gray (F32.of_double F64.zero) in
          if (0 <? recursion)%N
             && (F64.of_float (reflectivity surface_mtl) >? F64.zero)%f64
          then
            let refl_dir := Vec3.reflect ray_direction (normal intersection) in
            let refl_origin :=
              Vec3.add (position intersection)
                       (Vec3.scale refl_dir (F32.of_double (F64.lit 1 10000))) in
            match trace_unconditional fuel' s refl_origin refl_dir
                    (size_sub recursion 1) with
            | OutOfFuel => OutOfFuel
            | Returned (Some hit) =>
                Returned (Some (Color.add surface_albedo hit))
            | Returned None =>
                Returned (Some (Color.add surface_albedo surface_reflection))
            end
          else Returned (Some (Color.add surface_albedo surface_reflection))
      end
  end.

(** Positive zero; positive zero or a positive finite number. *)
Definition plus_zero (x : float) : bool :=
  match x with S754_zero false => true | _ => false end.
Definition finite_nonneg (x : float) : bool :=
  match x with S754_zero false | S754_finite false _ _ => true | _ => false end.

(** Pure black: every channel is positive zero. *)
Definition black (c : Color.t) : bool :=
  plus_zero (Color.r c) && plus_zero (Color.g c) && plus_zero (Color.b c).

Definition finite_light (c : Color.t) : bool :=
  finite_nonneg (Color.r c) && finite_nonneg (Color.g c) && finite_nonneg (Color.b c).

(** The hit is shaded, or its albedo is pure black and the lighting it would
    be multiplied by is finite and non-negative in every channel. *)
Definition skip_harmless (s : Scene.t) (h : Intersection) : bool :=
  shaded h
  || (black (albedo (material h))
      && finite_light (accumulate s (position h) (Scene.lights s) Scene.ambient)).

(** [skip_harmless] at every hit of the chain of reflections [trace] follows
    from the ray. *)
Fixpoint skip_harmless_along (fuel : nat) (s : Scene.t)
  (ray_origin ray_direction : Vec3.t) (recursion : N) {struct fuel} : bool :=
  match fuel with
  | O => true
  | S fuel' =>
      match Scene.intersect s ray_origin ray_direction with
      | None => true
      | Some h =>
          skip_harmless s h
          && (if (0 <? recursion)%N && reflects (material h) then
                let refl_dir := Vec3.reflect ray_direction (normal h) in
                let refl_origin :=
                  Vec3.add (position h)
                           (Vec3.scale refl_dir (F32.of_double (F64.lit 1 10000))) in
                skip_harmless_along fuel' s refl_origin refl_dir (size_sub recursion 1)
              else true)
      end
  end.

(** The back wall alone, with an albedo of mixed sign: brightness
    0.299 - 0.587 is negative. *)
Definition signed_material : Material :=
  mkMaterial (Color.mk (F32.of_Z 1) (F32.of_Z (-1)) (F32.of_Z 0)) (F32.of_double F64.zero).
Definition signed_scene : Scene.t :=
  Scene.mk [OPlane (Plane.mk signed_material (vec3 0 0 10) (vec3 0 0 (-1)))]
           (Scene.lights reference_scene).

(** A black unit sphere with a light on its surface, at the point the ray
    from (0, 0, -10) along [+z] hits. *)
Definition glare_scene : Scene.t :=
  Scene.mk [OSphere (Sphere.mk (mkMaterial (Color.gray F32.zero) F32.zero)
                       (vec3 0 0 0) (F32.of_Z 1))]
           [mkPointLight (vec3 0 0 (-1)) (F32.of_Z 10)
              (Color.mk (F32.of_Z 1) (F32.of_Z 1) (F32.of_Z 1))].

(** ** Sample file systems *)

(** Nothing can be opened for writing. *)
Definition read_only_fs : FileSystem :=
  mkFileSystem (fun _ => false) 0 (fun _ => None).

(** Files can be created, but the device takes five more bytes only. *)
Definition nearly_full_fs : FileSystem :=
  mkFileSystem (fun _ => true) 5 (fun _ => None).

(** Two mirrors facing each other across the origin, and the ray between
    them along [+z]: a cycle of reflections. *)
Definition mirror : Material :=
  mkMaterial (Color.gray (F32.of_double (F64.lit 8 10))) (F32.of_double (F64.of_Z 1)).
Definition mirror_corridor : Scene.t :=
  Scene.mk [OPlane (Plane.mk mirror (vec3 0 0 10) (vec3 0 0 (-1)));
            OPlane (Plane.mk mirror (vec3 0 0 (-10)) (vec3 0 0 1))]
           (Scene.lights reference_scene).

(** ** Pixels of an image *)

(** The position in [pixels] that [get] and [set] address for (x, y). *)
Definition pixel_index (img : Image.t) (x y : N) : nat :=
  N.to_nat (size_add (size_mul y (Image.width img)) x).

(** The address (x, y) falls inside the pixel buffer. *)
Definition addressable (img : Image.t) (x y : N) : Prop :=
  (pixel_index img x y < List.length (Image.pixels img))%nat.

(** ** The bytes of an image file *)

(** Everything [save] sends to the stream: the header, then three bytes for
    each pixel in buffer order. *)
Definition pixel_bytes (l : list Color.t) : string :=
  fold_right (fun c rest => (Image.binary c ++ rest)%string) EmptyString l.

Definition file_bytes (img : Image.t) : string :=
  (Image.header img ++ pixel_bytes (Image.pixels img))%string.

(** The stream [name], opened on [fs0], after [written] was sent to it. *)
Definition stream_state (fs0 : FileSystem) (name written : string) (fs : FileSystem)
  : Prop :=
  writable fs = writable fs0
  /\ space fs = (space fs0 - String.length written)%nat
  /\ contents fs name = Some (substring 0 (space fs0) written)
  /\ forall other, other <> name -> contents fs other = contents fs0 other.

(** ** Numbers with a sign, and equality of numbers *)

(** [x] is a zero, a finite number or an infinity of sign [s]. *)
Definition signed (s : bool) (x : spec_float) : Prop :=
  match x with
  | S754_zero s' | S754_infinity s' | S754_finite s' _ _ => s' = s
  | S754_nan => False
  end.

(** Zero of either sign, or below zero. *)
Definition not_positive (x : float) : bool :=
  match x with
  | S754_zero _ | S754_infinity true | S754_finite true _ _ => true
  | _ => false
  end.

(** [x == y], or both are NaN. *)
Definition same_number (x y : float) : Prop :=
  F32.eqb x y = true \/ (is_nan x = true /\ is_nan y = true).

Definition same_vector (a b : Vec3.t) : Prop :=
  same_number (Vec3.x a) (Vec3.x b)
  /\ same_number (Vec3.y a) (Vec3.y b)
  /\ same_number (Vec3.z a) (Vec3.z b).

(** ** Scenes put together *)

(** The nearer of two query results, the first one winning a tie. *)
Definition nearer (r1 r2 : option Intersection) : option Intersection :=
  match r1, r2 with
  | Some h1, Some h2 =>
      if F32.ltb (distance h2) (distance h1) then Some h2 else Some h1
  | Some h1, None => Some h1
  | None, _ => r2
  end.

Definition material_of (obj : Object) : Material :=
  match obj with
  | OPlane p => Plane.material p
  | OSphere s => Sphere.material s
  end.

(** No material of the scene passes the reflectivity test. *)
Definition matte (s : Scene.t) : Prop :=
  Forall (fun obj => reflects (material_of obj) = false) (Scene.objects s).

(** A zero of either sign in every component. *)
Definition zero_vector (v : Vec3.t) : Prop :=
  (exists s, Vec3.x v = S754_zero s)
  /\ (exists s, Vec3.y v = S754_zero s)
  /\ (exists s, Vec3.z v = S754_zero s).

(** ** The frame loop *)

(** The colour the loop of [main] computes for pixel (x, y) of a raster of
    the given size: the colour traced along the camera ray through the
    pixel, or black when the ray leaves the scene. *)
Definition traced_color (scene : Scene.t) (camera : Camera.t)
  (width height x y : N) : Color.t :=
  let ss_x :=
    F32.of_double
      (F64.of_Z 2 * F64.of_float (F32.of_Z (Z.of_N x))
       / F64.of_float (F32.of_Z (Z.of_N (size_sub width 1)))
       - F64.of_Z 1)%f64 in
  let ss_y :=
    F32.of_double
      (F64.of_Z 1
       - F64.of_Z 2 * F64.of_float (F32.of_Z (Z.of_N y))
         / F64.of_float (F32.of_Z (Z.of_N (size_sub height 1))))%f64 in
  match Scene.trace 11 scene (Camera.position camera)
          (Camera.projectRay camera ss_x ss_y) Scene.max_recursion with
  | Returned (Some color) => color
  | _ => Color.gray (F32.of_Z 0)
  end.

(** What the frame loop has established on image [t], started from [t0],
    after [k] whole rows: the dimensions and the buffer size are those of
    [t0], the pixels of the first [k] rows hold their traced colours, and
    every buffer position past those rows holds what [t0] held. *)
Definition rows_done (scene : Scene.t) (camera : Camera.t) (t0 : Image.t)
  (k : nat) (t : Image.t) : Prop :=
  let W := N.to_nat (Image.width t0) in
  Image.width t = Image.width t0
  /\ Image.height t = Image.height t0
  /\ List.length (Image.pixels t) = List.length (Image.pixels t0)
  /\ (forall y x, (y < k)%nat -> (x < W)%nat ->
        nth (y * W + x) (Image.pixels t) (Color.gray F32.zero)
        = traced_color scene camera (Image.width t0) (Image.height t0)
            (N.of_nat x) (N.of_nat y))
  /\ (forall i, (k * W <= i)%nat ->
        nth i (Image.pixels t) (Color.gray F32.zero)
        = nth i (Image.pixels t0) (Color.gray F32.zero)).

(** A file system with room for a million bytes. *)
Definition roomy_fs : FileSystem :=
  mkFileSystem (fun _ => true) (N.to_nat 1000000) (fun _ => None).

(** ** Degenerate cameras *)

(** A zero or a finite number: neither an infinity nor a NaN. *)
Definition finite_number (x : float) : Prop :=
  match x with
  | S754_zero _ | S754_finite _ _ _ => True
  | _ => False
  end.

Definition finite_vector (v : Vec3.t) : Prop :=
  finite_number (Vec3.x v) /\ finite_number (Vec3.y v) /\ finite_number (Vec3.z v).

Definition is_zero (x : float) : Prop := exists s, x = S754_zero s.
(** * Properties *)

(** ** The literals of the source *)

(** [0.1f] is 0x3DCCCCCD, [1e-6] is 0x3EB0C6F7A0B5ED8D, [FLT_MAX] is
    (2^24 - 1) * 2^104, and promoting a float changes its representation
    only. *)
Lemma literal_values :
  F32.of_double (F64.lit 1 10) = S754_finite false 13421773 (-27)
  /\ F64.lit 1 1000000 = S754_finite false 4722366482869645 (-72)
  /\ F32.max = S754_finite false 16777215 104
  /\ F64.of_float (F32.of_Z 10) = S754_finite false 5629499534213120 (-49)
  /\ F32.valid F32.max = true
  /\ F32.valid (F32.of_Z (10 ^ 30)) = true.
Proof. repeat split; vm_compute; reflexivity. Qed.

(** ** Comparisons of floating-point numbers *)

Ltac cmp_cases :=
  repeat match goal with
  | |- context [Z.compare ?a ?b] => destruct (Z.compare_spec a b)
  | H : context [Z.compare ?a ?b] |- _ => destruct (Z.compare_spec a b)
  | |- context [Pos.compare_cont Eq ?a ?b] =>
      change (Pos.compare_cont Eq a b) with (Pos.compare a b);
      destruct (Pos.compare_spec a b)
  | H : context [Pos.compare_cont Eq ?a ?b] |- _ =>
      change (Pos.compare_cont Eq a b) with (Pos.compare a b) in H;
      destruct (Pos.compare_spec a b)
  end.

Ltac float_cases :=
  repeat match goal with
  | x : spec_float |- _ => destruct x
  | b : bool |- _ => destruct b
  end.

(** Case analysis on the test of the first conditional of the goal. *)
Ltac case_if :=
  match goal with
  | |- context [if ?c then _ else _] => destruct c eqn:?
  end.

Ltac order_by_cases :=
  float_cases; simpl; try discriminate; try reflexivity; intros;
  cmp_cases; simpl in *; try discriminate; try reflexivity; subst; try lia.

Lemma SFltb_irrefl (x : spec_float) : SFltb x x = false.
Proof. unfold SFltb, SFcompare. order_by_cases. Qed.

Lemma SFltb_trans (a b c : spec_float) :
  SFltb a b = true -> SFltb b c = true -> SFltb a c = true.
Proof. unfold SFltb, SFcompare. order_by_cases. Qed.

Lemma SFleb_ltb_trans (a b c : spec_float) :
  SFleb a b = true -> SFltb b c = true -> SFltb a c = true.
Proof. unfold SFltb, SFleb, SFcompare. order_by_cases. Qed.

Lemma SFltb_leb (a b : spec_float) : SFltb a b = true -> SFleb a b = true.
Proof. unfold SFltb, SFleb. destruct (SFcompare a b) as [[]|]; easy. Qed.

Lemma SFltb_not_eqb (a b : spec_float) : SFltb a b = true -> SFeqb a b = false.
Proof. unfold SFltb, SFeqb. destruct (SFcompare a b) as [[]|]; easy. Qed.

Lemma SFleb_not_gtb (a b : spec_float) : SFleb a b = true -> SFltb b a = false.
Proof.
  intros Hle. destruct (SFltb b a) eqn:Hlt; [|reflexivity].
  rewrite <- (SFltb_irrefl a). symmetry. now apply SFleb_ltb_trans with b.
Qed.

Lemma SFcompare_swap (a b : spec_float) :
  SFcompare b a = option_map CompOpp (SFcompare a b).
Proof. unfold SFcompare. order_by_cases. Qed.

Lemma SFcompare_nan (a b : spec_float) :
  SFcompare a b = None -> is_nan a = true \/ is_nan b = true.
Proof. destruct a, b; simpl; try discriminate; auto. Qed.

(** On numbers, [not (a < b)] is [b <= a]. *)
Lemma SFltb_false_leb (a b : spec_float) :
  is_nan a = false -> is_nan b = false -> SFltb a b = false -> SFleb b a = true.
Proof.
  intros Ha Hb. unfold SFltb, SFleb. rewrite (SFcompare_swap a b).
  destruct (SFcompare a b) as [[]|] eqn:E; simpl; try easy.
  apply SFcompare_nan in E. destruct E; congruence.
Qed.

Lemma SFltb_not_nan (a b : spec_float) : SFltb a b = true -> is_nan a = false.
Proof. destruct a, b; simpl; easy. Qed.

(** ** Rounding never produces a NaN *)

Lemma shr_1_nonneg (mrs : shr_record) : 0 <= shr_m mrs -> 0 <= shr_m (shr_1 mrs).
Proof.
  destruct mrs as [m r s]. simpl. destruct m as [|[p|p|]|[p|p|]]; simpl; lia.
Qed.

Lemma iter_shr_1_nonneg (p : positive) (mrs : shr_record) :
  0 <= shr_m mrs -> 0 <= shr_m (iter_pos shr_1 p mrs).
Proof.
  revert mrs. induction p as [p IH|p IH|]; intros mrs H; simpl.
  - apply IH, IH, shr_1_nonneg, H.
  - apply IH, IH, H.
  - apply shr_1_nonneg, H.
Qed.

Lemma shr_fexp_nonneg (prec emax m e : Z) (l : location) :
  0 <= m -> 0 <= shr_m (fst (shr_fexp prec emax m e l)).
Proof.
  intros H. unfold shr_fexp, shr.
  assert (H0 : 0 <= shr_m (shr_record_of_loc m l)) by (destruct l as [|[]]; exact H).
  destruct (fexp prec emax (Zdigits2 m + e) - e); simpl; try exact H0.
  now apply iter_shr_1_nonneg.
Qed.

Lemma round_nearest_even_nonneg (m : Z) (l : location) :
  0 <= m -> 0 <= round_nearest_even m l.
Proof.
  intros H. destruct l as [|[]]; simpl; try lia. destruct (Z.even m); lia.
Qed.

Lemma binary_round_aux_not_nan (prec emax : Z) (s : bool) (m e : Z) (l : location) :
  0 <= m -> is_nan (binary_round_aux prec emax s m e l) = false.
Proof.
  intros H. unfold binary_round_aux.
  pose proof (shr_fexp_nonneg prec emax m e l H) as H1.
  destruct (shr_fexp prec emax m e l) as [mrs' e']. simpl in H1.
  pose proof (shr_fexp_nonneg prec emax _ e' loc_Exact
                (round_nearest_even_nonneg _ (loc_of_shr_record mrs') H1)) as H2.
  destruct (shr_fexp prec emax _ e' loc_Exact) as [mrs'' e'']. simpl in H2.
  destruct (shr_m mrs''); try reflexivity; [|lia].
  now destruct (e'' <=? emax - prec).
Qed.

Lemma binary_round_not_nan (prec emax : Z) (s : bool) (m : positive) (e : Z) :
  is_nan (binary_round prec emax s m e) = false.
Proof.
  unfold binary_round. destruct (shl_align _ _ _) as [mz ez].
  apply binary_round_aux_not_nan. lia.
Qed.

Lemma of_float_nan (x : float) : is_nan (F64.of_float x) = is_nan x.
Proof. destruct x; try reflexivity. apply binary_round_not_nan. Qed.

Lemma SFleb_negb_ltb (a b : spec_float) :
  is_nan a = false -> is_nan b = false -> SFleb b a = negb (SFltb a b).
Proof.
  intros Ha Hb. unfold SFltb, SFleb. rewrite (SFcompare_swap a b).
  destruct (SFcompare a b) as [[]|] eqn:E; simpl; try easy.
  apply SFcompare_nan in E. destruct E; congruence.
Qed.

(** ** Scene::intersect *)

Section NearestHit.
Variables ray_origin ray_direction : Vec3.t.

Let step := Scene.visit ray_origin ray_direction.

Lemma none_hit_below (d d' : float) (l : list Object) :
  none_hit ray_origin ray_direction F32.ltb d l ->
  F32.ltb d' d = true ->
  none_hit ray_origin ray_direction F32.leb d' l.
Proof.
  intros Hl Hlt. eapply Forall_impl; [|exact Hl].
  intros obj Hobj h Hh. specialize (Hobj h Hh).
  destruct (F32.leb (distance h) d') eqn:Hle; [|reflexivity].
  rewrite <- Hobj. symmetry. now apply SFleb_ltb_trans with d'.
Qed.

Lemma none_hit_weaken (d : float) (l : list Object) :
  none_hit ray_origin ray_direction F32.leb d l -> none_hit ray_origin ray_direction F32.ltb d l.
Proof.
  intros Hl. eapply Forall_impl; [|exact Hl].
  intros obj Hobj h Hh. specialize (Hobj h Hh).
  destruct (F32.ltb (distance h) d) eqn:Hlt; [|reflexivity].
  apply SFltb_leb in Hlt. unfold F32.leb in Hobj. congruence.
Qed.

Lemma scanned_step (init cur : Intersection) (l : list Object) (obj : Object) :
  scanned ray_origin ray_direction init cur l ->
  scanned ray_origin ray_direction init (step cur obj) (l ++ [obj]).
Proof.
  intros Hs. unfold step, Scene.visit.
  destruct (Object_intersect obj ray_origin ray_direction) as [h|] eqn:Hh.
  - destruct (F32.ltb (distance h) (distance cur)) eqn:Hlt.
    + (* the new hit replaces [cur] *)
      right. exists l, obj, []. split; [reflexivity|]. split; [exact Hh|].
      destruct Hs as [[-> Hnone] | (l1 & o1 & l2 & -> & Ho1 & Hcur & H1 & H2)].
      * split; [exact Hlt|]. split; [|constructor].
        now apply none_hit_below with (distance init).
      * split; [now apply SFltb_trans with (distance cur)|].
        split; [|constructor].
        apply Forall_app. split.
        -- apply none_hit_below with (distance cur); [|exact Hlt].
           now apply none_hit_weaken.
        -- constructor.
           ++ intros h' Hh'. rewrite Ho1 in Hh'. injection Hh' as <-.
              destruct (F32.leb (distance cur) (distance h)) eqn:Hle; [|reflexivity].
              apply SFleb_not_gtb in Hle. unfold F32.ltb in Hlt. congruence.
           ++ now apply none_hit_below with (distance cur).
    + (* [cur] stays *)
      destruct Hs as [[-> Hnone] | (l1 & o1 & l2 & -> & Ho1 & Hcur & H1 & H2)].
      * left. split; [reflexivity|]. apply Forall_app. split; [exact Hnone|].
        constructor; [|constructor]. intros h' Hh'. congruence.
      * right. exists l1, o1, (l2 ++ [obj]). rewrite <- app_assoc. simpl.
        repeat split; try assumption.
        apply Forall_app. split; [exact H2|].
        constructor; [|constructor]. intros h' Hh'. congruence.
  - destruct Hs as [[-> Hnone] | (l1 & o1 & l2 & -> & Ho1 & Hcur & H1 & H2)].
    + left. split; [reflexivity|]. apply Forall_app. split; [exact Hnone|].
      constructor; [|constructor]. intros h' Hh'. congruence.
    + right. exists l1, o1, (l2 ++ [obj]). rewrite <- app_assoc. simpl.
      repeat split; try assumption.
      apply Forall_app. split; [exact H2|].
      constructor; [|constructor]. intros h' Hh'. congruence.
Qed.

Lemma scanned_fold (init : Intersection) (l : list Object) :
  scanned ray_origin ray_direction init (fold_left step l init) l.
Proof.
  induction l as [|obj l IH] using rev_ind.
  - left. split; [reflexivity|constructor].
  - rewrite fold_left_app. simpl. now apply scanned_step.
Qed.
End NearestHit.

Lemma visit_initial_hit (m1 m2 : Material) (o d : Vec3.t) (l : list Object) :
  let f := fold_left (Scene.visit o d) l in
  (f (Scene.initial_hit m1) = Scene.initial_hit m1
   /\ f (Scene.initial_hit m2) = Scene.initial_hit m2)
  \/ f (Scene.initial_hit m1) = f (Scene.initial_hit m2).
Proof.
  induction l as [|obj l IH] using rev_ind; simpl; [now left|].
  rewrite !fold_left_app. simpl.
  destruct IH as [[-> ->] | ->]; [|now right].
  unfold Scene.visit. destruct (Object_intersect obj o d) as [h|]; [|now left].
  simpl. destruct (F32.ltb (distance h) F32.max); [now right|now left].
Qed.

(** The indeterminate material of [final_hit] never reaches the caller. *)
Lemma initial_hit_irrelevant (m : Material) (s : Scene.t) (o d : Vec3.t) :
  Scene.intersect_from (Scene.initial_hit m) s o d = Scene.intersect s o d.
Proof.
  unfold Scene.intersect, Scene.intersect_from.
  destruct (visit_initial_hit m Scene.indeterminate_material o d (Scene.objects s))
    as [[-> ->] | ->]; reflexivity.
Qed.

Lemma intersect_scanned (s : Scene.t) (o d : Vec3.t) :
  match Scene.intersect s o d with
  | Some hit =>
      exists l1 obj l2,
        Scene.objects s = l1 ++ obj :: l2
        /\ Object_intersect obj o d = Some hit
        /\ F32.ltb (distance hit) F32.max = true
        /\ none_hit o d F32.leb (distance hit) l1
        /\ none_hit o d F32.ltb (distance hit) l2
  | None => none_hit o d F32.ltb F32.max (Scene.objects s)
  end.
Proof.
  unfold Scene.intersect, Scene.intersect_from.
  destruct (scanned_fold o d (Scene.initial_hit Scene.indeterminate_material)
              (Scene.objects s)) as [[-> Hnone] | (l1 & obj & l2 & E & Hobj & Hlt & H1 & H2)].
  - exact Hnone.
  - simpl in Hlt. unfold F32.neqb. rewrite (SFltb_not_eqb _ _ Hlt). simpl.
    now exists l1, obj, l2.
Qed.

(** C4, amended.  [Scene::intersect] returns the hit of one shape of the
    scene; that hit lies strictly below [FLT_MAX], every hit reported by an
    earlier shape is neither nearer nor at the same distance (so among
    equal distances the first shape in collection order is kept), and no
    hit reported by a later shape is strictly nearer.  It returns no
    intersection if and only if no shape reports a hit strictly below
    [FLT_MAX]. *)
Theorem intersect_nearest_hit (s : Scene.t) (ray_origin ray_direction : Vec3.t) :
  match Scene.intersect s ray_origin ray_direction with
  | Some hit =>
      exists l1 obj l2,
        Scene.objects s = l1 ++ obj :: l2
        /\ Object_intersect obj ray_origin ray_direction = Some hit
        /\ F32.ltb (distance hit) F32.max = true
        /\ none_hit ray_origin ray_direction F32.leb (distance hit) l1
        /\ none_hit ray_origin ray_direction F32.ltb (distance hit) l2
  | None => True
  end
  /\ (Scene.intersect s ray_origin ray_direction = None
      <-> none_hit ray_origin ray_direction F32.ltb F32.max (Scene.objects s)).
Proof.
  pose proof (intersect_scanned s ray_origin ray_direction) as H.
  destruct (Scene.intersect s ray_origin ray_direction) as [hit|].
  - split; [exact H|]. split; [discriminate|].
    intros Hnone. exfalso.
    destruct H as (l1 & obj & l2 & E & Hobj & Hlt & _).
    rewrite E in Hnone. apply Forall_app in Hnone. destruct Hnone as [_ Hnone].
    inversion Hnone as [|? ? Hhead _]; subst.
    specialize (Hhead hit Hobj). unfold F32.ltb in *. congruence.
  - split; [exact I|]. split; [intros _; exact H|reflexivity].
Qed.

(** C4 as stated fails: the plane of [far_scene] reports a hit at distance
    [FLT_MAX], which the sentinel comparison never accepts, so the scene
    query returns no intersection although a shape reported one. *)
Lemma intersect_drops_hit_at_sentinel :
  ~ (Scene.intersect far_scene (vec3 0 0 0) (vec3 0 0 1) = None
     <-> Forall (fun obj => Object_intersect obj (vec3 0 0 0) (vec3 0 0 1) = None)
           (Scene.objects far_scene)).
Proof.
  intros [H _]. assert (E : Scene.intersect far_scene (vec3 0 0 0) (vec3 0 0 1) = None)
    by (vm_compute; reflexivity).
  specialize (H E). inversion H as [|? ? Hhead _]; subst.
  vm_compute in Hhead. discriminate.
Qed.

(** ** Invariants of intersections *)

Lemma plane_hit (p : Plane.t) (o d : Vec3.t) (h : Intersection) :
  Plane.intersect p o d = Some h ->
  normal h = Plane.normal p
  /\ material h = Plane.material p
  /\ F32.leb F32.zero (distance h) = true
  /\ on_ray o d h.
Proof.
  unfold Plane.intersect, on_ray.
  destruct (F64.gtb _ _); [|discriminate].
  destruct (F32.geb _ _) eqn:Hge; [|discriminate].
  intros [= <-]. simpl. auto.
Qed.

Lemma sphere_hit (s : Sphere.t) (o d : Vec3.t) (h : Intersection) :
  Sphere.intersect s o d = Some h ->
  normal h = Vec3.normalize (Vec3.sub (position h) (Sphere.center s))
  /\ material h = Sphere.material s
  /\ F32.ltb (distance h) F32.zero = false
  /\ on_ray o d h.
Proof.
  unfold Sphere.intersect, on_ray.
  destruct (F32.gtb _ _); [discriminate|].
  destruct (Sphere.roots _ _) as [t0 t1].
  destruct (F32.ltb t0 F32.zero) eqn:H0.
  - destruct (F32.ltb t1 F32.zero) eqn:H1; [discriminate|].
    intros [= <-]. simpl. auto.
  - intros [= <-]. simpl. auto.
Qed.




(** ** Plane::intersect *)

(** C6, amended.  [Plane::intersect] reports no hit when
    [denom = -normal.direction <= 1e-6]; otherwise it computes
    [t = -(origin_to_plane . normal) / denom] and reports a hit exactly
    when [t >= 0], at distance [t], at [origin + direction * t], with the
    plane's stored normal. *)
Theorem plane_intersect_rule (p : Plane.t) (ray_origin ray_direction : Vec3.t) :
  Plane.intersect p ray_origin ray_direction
  = plane_rule F32.opp p ray_origin ray_direction.
Proof.
  unfold Plane.intersect, plane_rule, plane_hit_at, F64.gtb, F64.leb, F32.geb, F32.leb.
  set (denom := F32.opp (Vec3.dot (Plane.normal p) ray_direction)).
  set (eps := F64.lit 1 1000000).
  assert (Hgt : SFltb eps (F64.of_float denom)
                = match SFcompare (F64.of_float denom) eps with
                  | Some Gt => true | _ => false end).
  { unfold SFltb. rewrite (SFcompare_swap (F64.of_float denom) eps).
    now destruct (SFcompare (F64.of_float denom) eps) as [[]|]. }
  assert (Hle : SFleb (F64.of_float denom) eps
                = match SFcompare (F64.of_float denom) eps with
                  | Some Gt | None => false | _ => true end).
  { unfold SFleb. now destruct (SFcompare (F64.of_float denom) eps) as [[]|]. }
  rewrite Hgt, Hle. clear Hgt Hle.
  destruct (SFcompare (F64.of_float denom) eps) as [[]|] eqn:E; try reflexivity.
  (* [denom] is a NaN: so is [t], and [t >= 0] fails *)
  apply SFcompare_nan in E. destruct E as [E|E]; [|vm_compute in E; discriminate].
  rewrite of_float_nan in E. destruct denom; try discriminate.
  set (num := F32.opp _). now destruct num.
Qed.

(** C6 as stated fails: with [t = (origin_to_plane . normal) / denom], the
    sign the specification gives it, the ray from the camera along its axis
    would miss the back wall of the reference scene, which
    [Plane::intersect] hits at distance 20. *)
Lemma plane_rule_sign :
  Plane.intersect back_wall (vec3 0 0 (-10)) (vec3 0 0 1)
  <> plane_rule (fun n => n) back_wall (vec3 0 0 (-10)) (vec3 0 0 1).
Proof. vm_compute. discriminate. Qed.

Lemma back_wall_hit :
  option_map distance (Plane.intersect back_wall (vec3 0 0 (-10)) (vec3 0 0 1))
  = Some (F32.of_Z 20)
  /\ plane_rule (fun n => n) back_wall (vec3 0 0 (-10)) (vec3 0 0 1) = None.
Proof. split; vm_compute; reflexivity. Qed.

(** ** Sphere::intersect *)

(** [increasing] puts two numbers in order: the second is never below the
    first, and is at or above it when both are numbers. *)
Lemma increasing_ordered (a b : float) :
  (increasing a b = (a, b) \/ increasing a b = (b, a))
  /\ F32.ltb (snd (increasing a b)) (fst (increasing a b)) = false
  /\ (is_nan a = false -> is_nan b = false ->
      F32.leb (fst (increasing a b)) (snd (increasing a b)) = true).
Proof.
  unfold increasing, F32.ltb, F32.leb.
  destruct (SFltb b a) eqn:E; cbn [fst snd].
  - split; [now right|]. split.
    + apply SFleb_not_gtb. now apply SFltb_leb.
    + intros _ _. now apply SFltb_leb.
  - split; [now left|]. split; [exact E|].
    intros Ha Hb. now apply SFltb_false_leb.
Qed.

(** The conditional [std::swap] leaves the two roots in increasing order. *)
Lemma roots_increasing (tca thc : float) :
  Sphere.roots tca thc = increasing (tca - thc)%f32 (tca + thc)%f32.
Proof. reflexivity. Qed.

Lemma sphere_intersect_rule (s : Sphere.t) (o d : Vec3.t) :
  Sphere.intersect s o d = sphere_rule (fun t => negb (F32.ltb t F32.zero)) s o d.
Proof.
  unfold Sphere.intersect, sphere_rule, sphere_roots, sphere_d2, sphere_hit_at.
  case_if; [reflexivity|].
  rewrite roots_increasing.
  match goal with |- context [increasing ?a ?b] =>
    destruct (increasing a b) as [t0 t1] end.
  destruct (F32.ltb t0 F32.zero); cbn [negb]; [|reflexivity].
  destruct (F32.ltb t1 F32.zero); reflexivity.
Qed.

(** C5, amended.  If [d2 > radius^2], [Sphere::intersect] reports no hit.
    Otherwise the two roots [tca - thc] and [tca + thc], with
    [thc = sqrt(radius^2 - d2)], are taken in increasing order ([t1] is
    never below [t0], and [t0 <= t1] when both are numbers), and the
    reported distance is [t0] unless [t0 < 0], in which case it is [t1]
    unless [t1 < 0], in which case no hit is reported; this is the rule
    "[t0] if [t0 >= 0], else [t1] if [t1 >= 0], else no hit" whenever
    neither root is a NaN.  The hit lies at [origin + direction * distance]
    and its normal is [normalize(hit_position - center)]. *)
Theorem sphere_intersect_policy (s : Sphere.t) (ray_origin ray_direction : Vec3.t) :
  Sphere.intersect s ray_origin ray_direction
  = sphere_rule (fun t => negb (F32.ltb t F32.zero)) s ray_origin ray_direction
  /\ F32.ltb (snd (sphere_roots s ray_origin ray_direction))
             (fst (sphere_roots s ray_origin ray_direction)) = false
  /\ (is_nan (fst (sphere_roots s ray_origin ray_direction)) = false ->
      is_nan (snd (sphere_roots s ray_origin ray_direction)) = false ->
      F32.leb (fst (sphere_roots s ray_origin ray_direction))
              (snd (sphere_roots s ray_origin ray_direction)) = true
      /\ Sphere.intersect s ray_origin ray_direction
         = sphere_rule (fun t => F32.geb t F32.zero) s ray_origin ray_direction).
Proof.
  split; [apply sphere_intersect_rule|].
  assert (Hord : F32.ltb (snd (sphere_roots s ray_origin ray_direction))
                         (fst (sphere_roots s ray_origin ray_direction)) = false).
  { unfold sphere_roots. apply increasing_ordered. }
  split; [exact Hord|].
  intros H0 H1. split.
  - apply SFltb_false_leb; assumption.
  - rewrite sphere_intersect_rule. unfold sphere_rule.
    case_if; [reflexivity|].
    destruct (sphere_roots s ray_origin ray_direction) as [t0 t1].
    cbn [fst snd] in H0, H1. unfold F32.geb, F32.ltb.
    now rewrite !SFleb_negb_ltb.
Qed.

(** The amended rule on the sample sphere: both roots are numbers, they are
    in order, and the nearer one, 8.5857..., is reported. *)
Lemma sphere_intersect_policy_witness :
  Sphere.intersect sample_sphere (vec3 1 1 (-10)) (vec3 0 0 1)
  = sphere_rule (fun t => F32.geb t F32.zero) sample_sphere (vec3 1 1 (-10)) (vec3 0 0 1)
  /\ option_map distance (Sphere.intersect sample_sphere (vec3 1 1 (-10)) (vec3 0 0 1))
     = Some (S754_finite false 9002850 (-20))
  /\ sphere_roots sample_sphere (vec3 1 1 (-10)) (vec3 0 0 1)
     = (S754_finite false 9002850 (-20), S754_finite false 11968670 (-20)).
Proof.
  split; [|split; vm_compute; reflexivity].
  refine (proj2 (proj2 (proj2 (sphere_intersect_policy sample_sphere
                                 (vec3 1 1 (-10)) (vec3 0 0 1))) _ _));
    vm_compute; reflexivity.
Defined.

(** C5 as stated fails: for the ray that starts at (-[FLT_MAX], 0, 0) and
    runs along [+x] toward the unit sphere about ([FLT_MAX], 0, 0), the
    offset [L = center - ray_origin] already has an infinite abscissa, so
    [tca] and [L.dot(L)] are infinite and [d2], [thc] and both roots are
    NaN; neither [d2 > radius2] nor [t0 < 0] holds, and [Sphere::intersect]
    reports a hit at distance NaN where the rule with [t0 >= 0] and
    [t1 >= 0] reports none. *)
Lemma sphere_rule_nan :
  unit_length (vec3 1 0 0)
  /\ F32.valid F32.max = true
  /\ Vec3.x (Vec3.sub (Sphere.center distant_sphere) distant_origin)
     = S754_infinity false
  /\ option_map distance (Sphere.intersect distant_sphere distant_origin (vec3 1 0 0))
     = Some S754_nan
  /\ sphere_rule (fun t => F32.geb t F32.zero) distant_sphere distant_origin (vec3 1 0 0)
     = None.
Proof.
  split; [split; vm_compute; reflexivity|].
  repeat split; vm_compute; reflexivity.
Qed.

(** ** Scene::trace: the recursion budget *)

Lemma size_sub_1_lt (r : N) : (0 < r -> size_sub r 1 < r)%N.
Proof.
  intros Hr. unfold size_sub, size_max.
  change (1 mod 2 ^ 64)%N with 1%N.
  destruct (N.lt_ge_cases r (2 ^ 64)) as [Hsmall|Hbig].
  - replace (r + (2 ^ 64 - 1))%N with ((r - 1) + 1 * 2 ^ 64)%N by lia.
    rewrite N.Div0.mod_add, N.mod_small; lia.
  - eapply N.lt_le_trans; [apply N.mod_lt; discriminate|exact Hbig].
Qed.

Lemma calls_decreases (s : Scene.t) (o d o' d' : Vec3.t) (r r' : N) :
  Scene.calls s (o, d, r) (o', d', r') -> (0 < r /\ r' < r)%N.
Proof.
  intros H. inversion H; subst. split; [assumption|now apply size_sub_1_lt].
Qed.

(** An activation answers [OutOfFuel] exactly when the activation it calls
    does; one that calls nothing answers with any positive allowance. *)
Lemma trace_calls_callee (s : Scene.t) (o d o' d' : Vec3.t) (r r' : N) (fuel : nat) :
  Scene.calls s (o, d, r) (o', d', r') ->
  (Scene.trace (S fuel) s o d r = OutOfFuel
   <-> Scene.trace fuel s o' d' r' = OutOfFuel).
Proof.
  intros H. inversion H as [? ? ? i Hi Hr Hm]; subst. cbn [Scene.trace].
  rewrite Hi. apply N.ltb_lt in Hr. rewrite Hr, Hm. cbn [andb].
  subst refl_origin refl_dir.
  match goal with
  | |- context [Scene.trace fuel s ?a ?b ?c] =>
      destruct (Scene.trace fuel s a b c) as [|[c'|]]
  end; split; intros E; first [reflexivity | discriminate E].
Qed.

Lemma trace_without_call (s : Scene.t) (o d : Vec3.t) (r : N) (fuel : nat) :
  (forall callee, ~ Scene.calls s (o, d, r) callee) ->
  exists c, Scene.trace (S fuel) s o d r = Returned c.
Proof.
  intros Hno. cbn [Scene.trace].
  destruct (Scene.intersect s o d) as [i|] eqn:Hi; [|now eexists].
  destruct (0 <? r)%N eqn:Hr; cbn [andb]; [|now eexists].
  destruct (F64.gtb _ _) eqn:Hm; [|now eexists].
  exfalso. eapply Hno. apply N.ltb_lt in Hr.
  exact (Scene.calls_reflection s o d r i Hi Hr Hm).
Qed.

(** An allowance above the budget is never used up. *)
Lemma trace_enough_fuel (s : Scene.t) (fuel : nat) :
  forall (o d : Vec3.t) (r : N),
    (N.to_nat r < fuel)%nat -> exists c, Scene.trace fuel s o d r = Returned c.
Proof.
  induction fuel as [|fuel IH]; intros o d r Hfuel; [lia|].
  cbn [Scene.trace].
  destruct (Scene.intersect s o d) as [i|]; [|now eexists].
  destruct (0 <? r)%N eqn:Hr; cbn [andb]; [|now eexists].
  destruct (F64.gtb _ _); [|now eexists].
  apply N.ltb_lt in Hr. pose proof (size_sub_1_lt r Hr) as Hlt.
  destruct (IH (Vec3.add (position i)
                  (Vec3.scale (Vec3.reflect d (normal i))
                     (F32.of_double (F64.lit 1 10000))))
               (Vec3.reflect d (normal i)) (size_sub r 1)) as [c Hc]; [lia|].
  rewrite Hc. destruct c; now eexists.
Qed.

(** C1.  [Scene::trace] terminates for every ray, scene and budget: a call
    depth of [recursion + 1] is enough for it to return.  Every recursive
    call it makes carries a strictly smaller budget, it makes none when the
    budget is zero, and from the default budget of 10 the depth never
    exceeds 11. *)
Theorem trace_terminates (s : Scene.t) (ray_origin ray_direction : Vec3.t)
  (recursion : N) :
  (exists c, Scene.trace (S (N.to_nat recursion)) s ray_origin ray_direction recursion
             = Returned c)
  /\ (exists c, Scene.trace 11 s ray_origin ray_direction Scene.max_recursion
                = Returned c)
  /\ (forall o' d' r',
        Scene.calls s (ray_origin, ray_direction, recursion) (o', d', r') ->
        (r' < recursion)%N)
  /\ (recursion = 0%N ->
      forall callee, ~ Scene.calls s (ray_origin, ray_direction, recursion) callee).
Proof.
  split; [apply trace_enough_fuel; lia|].
  split; [apply trace_enough_fuel; vm_compute; lia|].
  split.
  - intros o' d' r' H. now apply calls_decreases in H.
  - intros -> [[o' d'] r'] H. apply calls_decreases in H. lia.
Qed.

(** The bound is reached: between two facing mirrors every activation down
    to budget zero makes a call, a depth of 10 is not enough and a depth of
    11 is. *)
Lemma trace_terminates_witness :
  (exists c, Scene.trace 11 mirror_corridor (vec3 0 0 0) (vec3 0 0 1) Scene.max_recursion
             = Returned c)
  /\ Scene.trace 10 mirror_corridor (vec3 0 0 0) (vec3 0 0 1) Scene.max_recursion
     = OutOfFuel.
Proof.
  split; [|vm_compute; reflexivity].
  exact (proj1 (proj2 (trace_terminates mirror_corridor (vec3 0 0 0) (vec3 0 0 1) 0))).
Defined.

(** ** Scene::trace: what the reflectivity decides *)

Lemma same_gate_refl (m : Material) : same_gate m m.
Proof. split; reflexivity. Qed.

Lemma Object_intersect_same (o1 o2 : Object) (o d : Vec3.t) :
  same_shape o1 o2 ->
  same_result (Object_intersect o1 o d) (Object_intersect o2 o d).
Proof.
  destruct o1 as [[m1 po1 n1]|[m1 c1 r1]], o2 as [[m2 po2 n2]|[m2 c2 r2]];
    cbn [same_shape Plane.origin Plane.normal Plane.material
         Sphere.center Sphere.radius Sphere.material];
    try contradiction; intros (-> & -> & Hm); cbn [Object_intersect].
  - unfold Plane.intersect. cbn [Plane.origin Plane.normal Plane.material].
    case_if; [|exact I]. case_if; [|exact I].
    cbn [same_result]. unfold same_hit. cbn [distance position normal material].
    repeat split; apply Hm.
  - unfold Sphere.intersect. cbn [Sphere.center Sphere.radius Sphere.material].
    case_if; [exact I|].
    match goal with |- context [Sphere.roots ?a ?b] =>
      destruct (Sphere.roots a b) as [t0 t1] end.
    destruct (F32.ltb t0 F32.zero); [destruct (F32.ltb t1 F32.zero)|];
      try exact I; cbn [same_result]; unfold same_hit;
      cbn [distance position normal material]; repeat split; apply Hm.
Qed.

Lemma visit_same (o d : Vec3.t) (l1 l2 : list Object) :
  Forall2 same_shape l1 l2 ->
  forall c1 c2, same_hit c1 c2 ->
    same_hit (fold_left (Scene.visit o d) l1 c1) (fold_left (Scene.visit o d) l2 c2).
Proof.
  induction 1 as [|o1 o2 l1 l2 Ho _ IH]; intros c1 c2 Hc; [exact Hc|].
  simpl. apply IH. unfold Scene.visit.
  pose proof (Object_intersect_same o1 o2 o d Ho) as Hs.
  destruct (Object_intersect o1 o d) as [h1|], (Object_intersect o2 o d) as [h2|];
    simpl in Hs; try easy.
  destruct Hs as (Hd & Hrest), Hc as (Hcd & Hcrest). rewrite Hd, Hcd.
  destruct (F32.ltb _ _); split; assumption.
Qed.

Lemma intersect_same (s1 s2 : Scene.t) (o d : Vec3.t) :
  same_scene s1 s2 -> same_result (Scene.intersect s1 o d) (Scene.intersect s2 o d).
Proof.
  intros [Hobjs _]. unfold Scene.intersect, Scene.intersect_from.
  pose proof (visit_same o d _ _ Hobjs
                (Scene.initial_hit Scene.indeterminate_material)
                (Scene.initial_hit Scene.indeterminate_material)) as H.
  lapply H; [clear H; intros H|repeat split; reflexivity].
  destruct H as (Hd & Hrest). rewrite Hd.
  destruct (F32.neqb _ _); [split; assumption|exact I].
Qed.

Lemma obstructed_same (s1 s2 : Scene.t) (p : Vec3.t) (light : PointLight) :
  same_scene s1 s2 -> Scene.obstructed s1 p light = Scene.obstructed s2 p light.
Proof.
  intros Hs. unfold Scene.obstructed.
  pose proof (intersect_same s1 s2 (light_position light)
                (Vec3.normalize (Vec3.sub p (light_position light))) Hs) as H.
  destruct (Scene.intersect s1 _ _) as [h1|], (Scene.intersect s2 _ _) as [h2|];
    simpl in H; try easy.
  destruct H as (-> & _). reflexivity.
Qed.

Lemma lit_albedo_same (s1 s2 : Scene.t) (h1 h2 : Intersection) :
  same_scene s1 s2 -> same_hit h1 h2 -> Scene.lit_albedo s1 h1 = Scene.lit_albedo s2 h2.
Proof.
  intros Hs (_ & Hp & _ & Ha & _). unfold Scene.lit_albedo. rewrite Ha, Hp.
  destruct (F64.gtb _ _); [|reflexivity]. f_equal.
  assert (Hstep : forall acc light,
             Scene.light_step s1 (position h2) acc light
             = Scene.light_step s2 (position h2) acc light).
  { intros acc light. unfold Scene.light_step.
    now rewrite (obstructed_same s1 s2 _ _ Hs). }
  destruct Hs as [_ <-].
  generalize Scene.ambient. induction (Scene.lights s1) as [|light l IH]; intros acc;
    [reflexivity|]. simpl. now rewrite Hstep, IH.
Qed.

Lemma trace_same (s1 s2 : Scene.t) (fuel : nat) :
  same_scene s1 s2 ->
  forall (o d : Vec3.t) (r : N), Scene.trace fuel s1 o d r = Scene.trace fuel s2 o d r.
Proof.
  intros Hs. induction fuel as [|fuel IH]; intros o d r; [reflexivity|].
  cbn [Scene.trace].
  pose proof (intersect_same s1 s2 o d Hs) as Hi.
  destruct (Scene.intersect s1 o d) as [h1|], (Scene.intersect s2 o d) as [h2|];
    simpl in Hi; try easy.
  rewrite (lit_albedo_same s1 s2 h1 h2 Hs Hi).
  destruct Hi as (_ & -> & -> & _ & Hg). unfold reflects in Hg. rewrite Hg.
  destruct (_ && _); [|reflexivity]. now rewrite IH.
Qed.

(** C3, amended.  [trace] reads a material's reflectivity only to test
    whether it is greater than zero.  Scenes that differ in reflectivity
    values alone, with every pair on the same side of that test, give the
    same colour for every ray and budget.  Where the test passes and the
    budget is positive, the colour of the recursively traced reflection is
    added to the lit albedo whole, not scaled by the reflectivity - black
    if the reflected ray hits nothing.  Where the test fails, or the budget
    is zero, black is added: the reflection contributes nothing at all. *)
Theorem reflectivity_is_a_gate (s1 s2 : Scene.t) (fuel : nat)
  (ray_origin ray_direction : Vec3.t) (recursion : N)
  (Hsame : same_scene s1 s2) :
  Scene.trace fuel s1 ray_origin ray_direction recursion
  = Scene.trace fuel s2 ray_origin ray_direction recursion
  /\ (forall hit,
        Scene.intersect s1 ray_origin ray_direction = Some hit ->
        let black := Color.gray F32.zero in
        let traced :=
          Scene.trace fuel s1 (reflected_origin ray_direction hit)
            (reflected_direction ray_direction hit) (size_sub recursion 1) in
        ((0 < recursion)%N -> reflects (material hit) = true ->
         forall reflection, traced = Returned (Some reflection) ->
           Scene.trace (S fuel) s1 ray_origin ray_direction recursion
           = Returned (Some (Color.add (Scene.lit_albedo s1 hit) reflection)))
        /\ ((0 < recursion)%N -> reflects (material hit) = true ->
            traced = Returned None ->
            Scene.trace (S fuel) s1 ray_origin ray_direction recursion
            = Returned (Some (Color.add (Scene.lit_albedo s1 hit) black)))
        /\ (recursion = 0%N \/ reflects (material hit) = false ->
            Scene.trace (S fuel) s1 ray_origin ray_direction recursion
            = Returned (Some (Color.add (Scene.lit_albedo s1 hit) black)))).
Proof.
  split; [now apply trace_same|].
  intros hit Hi. cbv zeta. unfold reflected_origin, reflected_direction, reflects.
  cbn [Scene.trace]. rewrite Hi.
  split; [|split].
  - intros Hr Hg reflection Ht. apply N.ltb_lt in Hr. rewrite Hr, Hg. cbn [andb].
    now rewrite Ht.
  - intros Hr Hg Ht. apply N.ltb_lt in Hr. rewrite Hr, Hg. cbn [andb].
    now rewrite Ht.
  - intros [-> | Hg].
    + reflexivity.
    + rewrite Hg. now rewrite andb_false_r.
Qed.

Lemma sphere_scene_same (k1 k2 : float) :
  reflects (mkMaterial (albedo mirror_sphere) k1)
  = reflects (mkMaterial (albedo mirror_sphere) k2) ->
  same_scene (sphere_scene k1) (sphere_scene k2).
Proof.
  intros Hk. split; [|reflexivity]. unfold sphere_scene. cbn [Scene.objects].
  induction (Scene.objects reference_scene) as [|[p|s] l IH]; cbn [map];
    constructor; try exact IH; cbn [same_shape Sphere.center Sphere.radius Sphere.material].
  - repeat split; reflexivity.
  - repeat split; try reflexivity. exact Hk.
Qed.

(** The amended statement on the reference scene: spheres of reflectivity
    one half and of reflectivity one give the same colour. *)
Lemma reflectivity_is_a_gate_witness :
  Scene.trace 11 (sphere_scene (F32.of_double (F64.lit 5 10)))
    (vec3 0 0 (-10)) sphere_ray Scene.max_recursion
  = Scene.trace 11 (sphere_scene (F32.of_double (F64.of_Z 1)))
      (vec3 0 0 (-10)) sphere_ray Scene.max_recursion.
Proof.
  refine (proj1 (reflectivity_is_a_gate
                   (sphere_scene (F32.of_double (F64.lit 5 10)))
                   (sphere_scene (F32.of_double (F64.of_Z 1)))
                   11 (vec3 0 0 (-10)) sphere_ray Scene.max_recursion _)).
  refine (sphere_scene_same (F32.of_double (F64.lit 5 10)) (F32.of_double (F64.of_Z 1)) _).
  vm_compute. reflexivity.
Defined.

(** C3 as stated fails: the ray meets a sphere of black albedo, so the
    colour returned is the reflection's contribution alone, and it is the
    same colour, 0.4377..., whether the sphere's reflectivity is 0.5 or 1.0;
    the contribution at 0.5 is not half of the contribution at 1.0. *)
Lemma reflection_not_scaled :
  let half := F32.of_double (F64.lit 5 10) in
  let one := F32.of_double (F64.of_Z 1) in
  let grey := Color.gray (S754_finite false 14689155 (-25)) in
  Scene.trace 11 (sphere_scene one) (vec3 0 0 (-10)) sphere_ray Scene.max_recursion
  = Returned (Some grey)
  /\ Scene.trace 11 (sphere_scene half) (vec3 0 0 (-10)) sphere_ray Scene.max_recursion
     = Returned (Some grey)
  /\ Color.scale grey half <> grey.
Proof.
  cbv zeta. split; [vm_compute; reflexivity|]. split; [vm_compute; reflexivity|].
  vm_compute. discriminate.
Qed.

(** ** Scene::trace: lights and shadows *)

Lemma light_step_term (s : Scene.t) (p : Vec3.t) (acc : Color.t) (light : PointLight) :
  Scene.light_step s p acc light
  = if occluded s p light then acc else Color.add acc (light_term p light).
Proof. reflexivity. Qed.

Lemma lit_albedo_shaded (s : Scene.t) (h : Intersection) :
  shaded h = true ->
  Scene.lit_albedo s h
  = Color.mul (albedo (material h))
      (accumulate s (position h) (Scene.lights s) Scene.ambient).
Proof. unfold Scene.lit_albedo, shaded. now intros ->. Qed.

(** What an activation that met [hit] returns: the lit albedo plus some
    reflection colour. *)
Lemma trace_returns_lit_albedo (s : Scene.t) (fuel : nat) (o d : Vec3.t) (r : N)
  (hit : Intersection) :
  Scene.intersect s o d = Some hit ->
  (N.to_nat r < fuel)%nat ->
  exists reflection,
    Scene.trace fuel s o d r
    = Returned (Some (Color.add (Scene.lit_albedo s hit) reflection)).
Proof.
  intros Hi Hfuel. destruct fuel as [|fuel]; [lia|]. cbn [Scene.trace]. rewrite Hi.
  case_if; [|now eexists].
  match goal with
  | |- context [Scene.trace fuel s ?a ?b ?c] =>
      destruct (trace_enough_fuel s fuel a b c) as [[c'|] ->]
  end; try (now eexists).
  apply andb_prop in Heqb. destruct Heqb as [Hr _]. apply N.ltb_lt in Hr.
  pose proof (size_sub_1_lt r Hr). lia.
Qed.

Lemma accumulate_all_occluded (s : Scene.t) (p : Vec3.t) (l : list PointLight)
  (acc : Color.t) :
  Forall (fun light => occluded s p light = true) l -> accumulate s p l acc = acc.
Proof.
  induction 1 as [|light l Hl _ IH]; [reflexivity|].
  unfold accumulate in *. cbn [fold_left]. now rewrite Hl.
Qed.

Lemma lit_albedo_color (s : Scene.t) (h : Intersection) :
  Scene.lit_albedo s h = lit_color s h.
Proof. reflexivity. Qed.

(** What an activation that met [hit] returns. *)
Lemma trace_at_hit (s : Scene.t) (fuel : nat) (o d : Vec3.t) (r : N)
  (hit : Intersection) :
  Scene.intersect s o d = Some hit ->
  (N.to_nat r <= fuel)%nat ->
  Scene.trace (S fuel) s o d r
  = Returned (Some (Color.add (lit_color s hit) (reflection_term fuel s d r hit))).
Proof.
  intros Hi Hfuel. cbn [Scene.trace]. rewrite Hi, lit_albedo_color.
  unfold reflection_term, reflects, reflected_origin, reflected_direction.
  case_if; [|reflexivity].
  apply andb_prop in Heqb. destruct Heqb as [Hr _]. apply N.ltb_lt in Hr.
  pose proof (size_sub_1_lt r Hr) as Hlt.
  match goal with
  | |- context [Scene.trace fuel s ?a ?b ?c] =>
      destruct (trace_enough_fuel s fuel a b c) as [[c'|] ->]; [lia| |]
  end; reflexivity.
Qed.

Lemma accumulate_snoc (s : Scene.t) (p : Vec3.t) (l : list PointLight)
  (light : PointLight) (acc : Color.t) :
  accumulate s p (l ++ [light]) acc
  = if occluded s p light then accumulate s p l acc
    else Color.add (accumulate s p l acc) (light_term p light).
Proof. unfold accumulate. now rewrite fold_left_app. Qed.

(** C7, amended.  At every hit [trace] returns the lit colour plus the
    reflection's contribution.  Where the albedo's brightness is above
    zero the lit colour is the albedo times the lighting accumulator,
    which starts at the ambient term and to which each light, taken in
    order, either adds nothing - when the nearest scene hit along the
    shadow ray, cast from the light position toward the hit point, has
    distance strictly less than [d - 1e-3], [d] the distance from the hit
    position to the light - or adds exactly
    [light.color * (light.power / d)]; with every light occluded the
    accumulator is the ambient term alone.  Where the brightness is not
    above zero no light contributes: the lit colour is the albedo itself. *)
Theorem lights_shadow_and_falloff (s : Scene.t) (ray_origin ray_direction : Vec3.t)
  (recursion : N) (hit : Intersection)
  (Hhit : Scene.intersect s ray_origin ray_direction = Some hit) :
  Scene.trace (S (N.to_nat recursion)) s ray_origin ray_direction recursion
  = Returned
      (Some (Color.add (lit_color s hit)
               (reflection_term (N.to_nat recursion) s ray_direction recursion hit)))
  /\ (shaded hit = true ->
      lit_color s hit
      = Color.mul (albedo (material hit))
          (accumulate s (position hit) (Scene.lights s) Scene.ambient))
  /\ (forall lights light,
        accumulate s (position hit) (lights ++ [light]) Scene.ambient
        = let lighting := accumulate s (position hit) lights Scene.ambient in
          let d := light_distance (position hit) light in
          let added :=
            Color.add lighting (Color.scale (light_color light) (power light / d)%f32) in
          match shadow_hit s (position hit) light with
          | Some h =>
              if F64.ltb (F64.of_float (distance h))
                   (F64.of_float d - F64.lit 1 1000)%f64
              then lighting
              else added
          | None => added
          end)
  /\ (Forall (fun light => occluded s (position hit) light = true) (Scene.lights s) ->
      accumulate s (position hit) (Scene.lights s) Scene.ambient = Scene.ambient)
  /\ (shaded hit = false -> lit_color s hit = albedo (material hit)).
Proof.
  split; [now apply trace_at_hit|].
  split; [unfold lit_color; now intros ->|].
  split.
  - intros lights light. rewrite accumulate_snoc. cbv zeta.
    unfold occluded, light_term.
    now destruct (shadow_hit s (position hit) light).
  - split; [apply accumulate_all_occluded|].
    unfold lit_color. now intros ->.
Qed.

(** The amended statement on the reference scene: the ray from the camera
    along its axis meets the back wall, whose albedo of 0.8 is shaded;
    nothing stands between the wall and the light, which adds its colour
    times [10 / 10], and the wall does not reflect. *)
Lemma lights_shadow_and_falloff_witness :
  let h := plane_hit_at back_wall (vec3 0 0 (-10)) (vec3 0 0 1) (F32.of_Z 20) in
  Scene.trace (S (N.to_nat Scene.max_recursion)) reference_scene
    (vec3 0 0 (-10)) (vec3 0 0 1) Scene.max_recursion
  = Returned
      (Some (Color.add (lit_color reference_scene h)
               (reflection_term (N.to_nat Scene.max_recursion) reference_scene
                  (vec3 0 0 1) Scene.max_recursion h)))
  /\ lit_color reference_scene h
     = Color.mul (albedo other_plane)
         (Color.add Scene.ambient
            (Color.gray (F32.of_Z 1))).
Proof.
  intros h. split; [|vm_compute; reflexivity].
  refine (proj1 (lights_shadow_and_falloff reference_scene
                   (vec3 0 0 (-10)) (vec3 0 0 1) Scene.max_recursion h _)).
  vm_compute. reflexivity.
Defined.

(** C7 as stated fails at a hit whose albedo has brightness not above
    zero: on [signed_scene] nothing stands between the wall and the light,
    yet the light adds nothing - [trace] returns the albedo (1, -1, 0)
    unlit, not the albedo times the accumulator, (1.1, -1.1, 0). *)
Lemma unshaded_hit_gets_no_light :
  exists h,
    Scene.intersect signed_scene (vec3 0 0 (-10)) (vec3 0 0 1) = Some h
    /\ Forall (fun light => occluded signed_scene (position h) light = false)
         (Scene.lights signed_scene)
    /\ Scene.trace 11 signed_scene (vec3 0 0 (-10)) (vec3 0 0 1) Scene.max_recursion
       = Returned (Some (albedo (material h)))
    /\ Scene.trace 11 signed_scene (vec3 0 0 (-10)) (vec3 0 0 1) Scene.max_recursion
       <> Returned
            (Some (Color.add
                     (Color.mul (albedo (material h))
                        (accumulate signed_scene (position h)
                           (Scene.lights signed_scene) Scene.ambient))
                     (reflection_term 10 signed_scene (vec3 0 0 1)
                        Scene.max_recursion h))).
Proof.
  destruct (Scene.intersect signed_scene (vec3 0 0 (-10)) (vec3 0 0 1))
    as [h|] eqn:E; [|vm_compute in E; discriminate].
  exists h. split; [reflexivity|].
  vm_compute in E. injection E as <-.
  split; [repeat constructor|].
  split; [vm_compute; reflexivity|vm_compute; discriminate].
Qed.

(** ** Scene::trace: skipping the lighting of dark materials *)

Lemma black_times_light (a l : Color.t) :
  black a = true -> finite_light l = true -> Color.mul a l = a.
Proof.
  destruct a as [ar ag ab], l as [lr lg lb]. unfold black, finite_light.
  cbn [Color.r Color.g Color.b]. intros Ha Hl.
  apply andb_prop in Ha. destruct Ha as [Ha Hb]. apply andb_prop in Ha. destruct Ha as [Hr Hg].
  apply andb_prop in Hl. destruct Hl as [Hl Hlb]. apply andb_prop in Hl. destruct Hl as [Hlr Hlg].
  unfold Color.mul. cbn [Color.r Color.g Color.b].
  destruct ar as [[]| | |]; try discriminate Hr.
  destruct ag as [[]| | |]; try discriminate Hg.
  destruct ab as [[]| | |]; try discriminate Hb.
  destruct lr as [[]| | |[]]; try discriminate Hlr;
  destruct lg as [[]| | |[]]; try discriminate Hlg;
  destruct lb as [[]| | |[]]; try discriminate Hlb; reflexivity.
Qed.

Lemma lit_albedo_skip_harmless (s : Scene.t) (h : Intersection) :
  skip_harmless s h = true -> Scene.lit_albedo s h = lit_albedo_unconditional s h.
Proof.
  unfold skip_harmless, Scene.lit_albedo, lit_albedo_unconditional, shaded.
  destruct (F64.gtb (F64.of_float (Color.brightness (albedo (material h)))) F64.zero);
    [reflexivity|].
  cbn [orb]. intros H. apply andb_prop in H. destruct H as [Hb Hl].
  symmetry. now apply black_times_light.
Qed.

(** C8, amended.  Skipping the lighting computation when the albedo's
    brightness is not greater than zero leaves the colour returned by
    [trace] the one the variant that always multiplies the albedo by the
    lighting returns, provided that every surface met along the ray's
    chain of reflections either has an albedo of brightness above zero or
    has a pure-black albedo (every channel +0) and a lighting total that is
    finite and non-negative in every channel. *)
Theorem lighting_skip_is_invisible (s : Scene.t) (fuel : nat)
  (ray_origin ray_direction : Vec3.t) (recursion : N)
  (Hharmless : skip_harmless_along fuel s ray_origin ray_direction recursion = true) :
  Scene.trace fuel s ray_origin ray_direction recursion
  = trace_unconditional fuel s ray_origin ray_direction recursion.
Proof.
  revert ray_origin ray_direction recursion Hharmless.
  induction fuel as [|fuel IH]; intros o d r H; [reflexivity|].
  cbn [Scene.trace trace_unconditional skip_harmless_along] in *.
  destruct (Scene.intersect s o d) as [h|]; [|reflexivity].
  apply andb_prop in H. destruct H as [Hh Hrest].
  rewrite (lit_albedo_skip_harmless s h Hh). unfold reflects in Hrest.
  destruct (_ && _); [|reflexivity]. now rewrite (IH _ _ _ Hrest).
Qed.

(** The amended statement on the reference scene, for the ray that meets the
    first (black, mirroring) sphere and is reflected on. *)
Lemma lighting_skip_is_invisible_witness :
  Scene.trace 11 reference_scene (vec3 0 0 (-10)) sphere_ray Scene.max_recursion
  = trace_unconditional 11 reference_scene (vec3 0 0 (-10)) sphere_ray
      Scene.max_recursion.
Proof.
  refine (lighting_skip_is_invisible reference_scene 11 (vec3 0 0 (-10)) sphere_ray
            Scene.max_recursion _).
  vm_compute. reflexivity.
Defined.

(** C8 as stated fails: the albedo (1, -1, 0) has brightness below zero, so
    [trace] returns it unlit, while the variant that always multiplies
    returns it times the lighting total of 1.1, that is (1.1, -1.1, 0). *)
Lemma lighting_skip_changes_signed_albedo :
  Scene.trace 11 signed_scene (vec3 0 0 (-10)) (vec3 0 0 1) Scene.max_recursion
  = Returned (Some (Color.mk (F32.of_Z 1) (F32.of_Z (-1)) (F32.of_Z 0)))
  /\ trace_unconditional 11 signed_scene (vec3 0 0 (-10)) (vec3 0 0 1) Scene.max_recursion
     <> Scene.trace 11 signed_scene (vec3 0 0 (-10)) (vec3 0 0 1) Scene.max_recursion.
Proof. split; [vm_compute; reflexivity|vm_compute; discriminate]. Qed.

(** Why the lighting has to be finite: a light that sits on the hit point
    has attenuation [power / 0], an infinite lighting total, and black
    times infinity is a NaN. *)
Lemma black_under_infinite_light :
  Scene.trace 11 glare_scene (vec3 0 0 (-10)) (vec3 0 0 1) Scene.max_recursion
  = Returned (Some (Color.gray F32.zero))
  /\ trace_unconditional 11 glare_scene (vec3 0 0 (-10)) (vec3 0 0 1) Scene.max_recursion
     = Returned (Some (Color.gray S754_nan)).
Proof. split; vm_compute; reflexivity. Qed.

(** ** Image::save and main *)

Lemma save_result (img : Image.t) (file_name : string) (fs : FileSystem) :
  fst (Image.save file_name (img, fs)) = writable fs file_name
  /\ fst (snd (Image.save file_name (img, fs))) = img.
Proof.
  unfold Image.save, fopen_wb. destruct (writable fs file_name); split; reflexivity.
Qed.

(** C10.  [Image::save] returns false exactly when the file cannot be
    opened for writing and true exactly when it can, whatever the device
    then does with the header and the pixel data, and in both cases the
    image it was called on - dimensions and pixel buffer - is unchanged. *)
Theorem save_reports_open_failure_only (img : Image.t) (file_name : string)
  (fs : FileSystem) :
  (fst (Image.save file_name (img, fs)) = false <-> writable fs file_name = false)
  /\ (fst (Image.save file_name (img, fs)) = true <-> writable fs file_name = true)
  /\ fst (snd (Image.save file_name (img, fs))) = img.
Proof.
  destruct (save_result img file_name fs) as [-> ->].
  repeat split; auto.
Qed.

(** A short write goes unreported: on a device with room for five bytes the
    file ends after the first five bytes of the header, and [save] returns
    true. *)
Lemma save_ignores_short_write :
  let r := Image.save "out.ppm" (Image.new 2 1, nearly_full_fs) in
  fst r = true
  /\ contents (snd (snd r)) "out.ppm"%string = Some "P6 2 "%string
  /\ fst (snd r) = Image.new 2 1.
Proof. cbv zeta. repeat split; vm_compute; reflexivity. Qed.

(** [main] returns 0 whatever [save] returned. *)
Lemma main_returns_zero (powf : float -> float -> float) (fs : FileSystem) :
  fst (main powf fs) = 0.
Proof.
  unfold main.
  destruct (Image.save "output.pgm" (rendered powf, fs)) as [b [img fs']].
  reflexivity.
Qed.

(** C2 fails on the code: where no file can be opened for writing,
    [Image::save] reports failure and [main] still returns status 0. *)
Theorem main_ignores_save_failure (powf : float -> float -> float) :
  fst (Image.save "output.pgm" (rendered powf, read_only_fs)) = false
  /\ fst (main powf read_only_fs) = 0.
Proof.
  split; [|apply main_returns_zero].
  now rewrite (proj1 (save_result (rendered powf) "output.pgm" read_only_fs)).
Qed.

(** * Further properties of the program *)

(** ** Image: get, set, clear, apply *)

Lemma update_length (l : list Color.t) (i : nat) (c : Color.t) :
  List.length (Image.update l i c) = List.length l.
Proof.
  revert i. induction l as [|a l IH]; intros [|i]; cbn [Image.update List.length];
    try reflexivity. now rewrite IH.
Qed.

Lemma nth_update_same (l : list Color.t) (i : nat) (c d : Color.t) :
  (i < List.length l)%nat -> nth i (Image.update l i c) d = c.
Proof.
  revert i. induction l as [|a l IH]; intros [|i] H; cbn [List.length] in H;
    cbn [Image.update nth]; try lia; [reflexivity|]. apply IH. lia.
Qed.

Lemma nth_update_other (l : list Color.t) (i j : nat) (c d : Color.t) :
  i <> j -> nth i (Image.update l j c) d = nth i l d.
Proof.
  revert i j. induction l as [|a l IH]; intros [|i] [|j] H;
    cbn [Image.update nth]; try reflexivity; try congruence.
  apply IH. congruence.
Qed.

Lemma update_beyond (l : list Color.t) (i : nat) (c : Color.t) :
  (List.length l <= i)%nat -> Image.update l i c = l.
Proof.
  revert i. induction l as [|a l IH]; intros [|i] H; cbn [List.length] in H;
    cbn [Image.update]; try reflexivity; try lia. f_equal. apply IH. lia.
Qed.

(** Writing a pixel inside the buffer and reading it back gives the colour
    written; every pixel at another buffer position keeps its colour; the
    dimensions and the size of the buffer do not change. *)
Theorem set_then_get (img : Image.t) (x y : N) (color : Color.t)
  (Hin : addressable img x y) :
  Image.get (Image.set img x y color) x y = color
  /\ (forall x' y', pixel_index img x' y' <> pixel_index img x y ->
        Image.get (Image.set img x y color) x' y' = Image.get img x' y')
  /\ Image.width (Image.set img x y color) = Image.width img
  /\ Image.height (Image.set img x y color) = Image.height img
  /\ List.length (Image.pixels (Image.set img x y color)) = List.length (Image.pixels img).
Proof.
  unfold Image.get, Image.set, addressable, pixel_index in *.
  cbn [Image.width Image.height Image.pixels].
  split; [now apply nth_update_same|].
  split; [intros x' y' H; now apply nth_update_other|].
  repeat split. apply update_length.
Qed.

Lemma set_then_get_witness :
  Image.get (Image.set (Image.new 4 4) 1 2 (Color.gray (F32.of_Z 1))) 1 2
  = Color.gray (F32.of_Z 1).
Proof.
  refine (proj1 (set_then_get (Image.new 4 4) 1 2 (Color.gray (F32.of_Z 1)) _)).
  vm_compute. lia.
Defined.

(** [get] and [set] do no bounds check on [x]: the address one past the end
    of row [y] is the first address of row [y + 1], so a write to
    (width, y) lands on pixel (0, y + 1). *)
Theorem column_overflow_aliases_next_row (img : Image.t) (y : N) (color : Color.t) :
  pixel_index img (Image.width img) y = pixel_index img 0 (size_add y 1)
  /\ Image.set img (Image.width img) y color = Image.set img 0 (size_add y 1) color
  /\ Image.get img (Image.width img) y = Image.get img 0 (size_add y 1).
Proof.
  assert (E : pixel_index img (Image.width img) y = pixel_index img 0 (size_add y 1)).
  { unfold pixel_index, size_add, size_mul. f_equal.
    rewrite N.add_0_r, N.Div0.mod_mod.
    rewrite N.Div0.add_mod_idemp_l, N.Div0.mul_mod_idemp_l.
    f_equal. lia. }
  unfold Image.set, Image.get. unfold pixel_index in E. now rewrite E.
Qed.

(** A write outside the buffer changes nothing (the source leaves it
    undefined; the model keeps the vector). *)
Lemma set_beyond (img : Image.t) (x y : N) (color : Color.t) :
  ~ addressable img x y -> Image.set img x y color = img.
Proof.
  unfold addressable, pixel_index, Image.set. intros H.
  rewrite update_beyond by lia. now destruct img.
Qed.

(** [apply] maps every pixel and keeps the dimensions; two passes are one
    pass with the composed function; [clear] is the pass with a constant. *)
Theorem apply_maps_pixels (f g : Color.t -> Color.t) (img : Image.t) :
  Image.apply g (Image.apply f img) = Image.apply (fun c => g (f c)) img
  /\ (forall x y, addressable img x y ->
        Image.get (Image.apply f img) x y = f (Image.get img x y))
  /\ (forall color, Image.clear img color = Image.apply (fun _ => color) img)
  /\ Image.width (Image.apply f img) = Image.width img
  /\ Image.height (Image.apply f img) = Image.height img
  /\ List.length (Image.pixels (Image.apply f img)) = List.length (Image.pixels img).
Proof.
  unfold Image.apply, Image.clear, Image.get, addressable, pixel_index.
  cbn [Image.width Image.height Image.pixels].
  split; [now rewrite map_map|].
  split.
  - intros x y H.
    rewrite (nth_indep _ _ (f (Color.gray F32.zero))) by now rewrite length_map.
    apply map_nth.
  - repeat split. apply length_map.
Qed.

(** A fresh image holds [width * height] pixels (the product taken in
    [size_t]), every one of them black. *)
Lemma new_pixels (w h : N) :
  List.length (Image.pixels (Image.new w h)) = N.to_nat (size_mul w h)
  /\ forall x y, Image.get (Image.new w h) x y = Color.gray F32.zero.
Proof.
  unfold Image.new, Image.get. cbn [Image.pixels].
  split; [apply repeat_length|]. intros x y.
  change (F32.of_double F64.zero) with F32.zero.
  generalize (N.to_nat (size_add (size_mul y (Image.width
             {| Image.width := w; Image.height := h;
                Image.pixels := repeat (Color.gray F32.zero) (N.to_nat (size_mul w h)) |})) x)).
  generalize (N.to_nat (size_mul w h)). intros n i.
  revert i. induction n as [|n IH]; intros [|i]; cbn [repeat nth]; auto.
Qed.

(** ** Image::save: the bytes that reach the file *)

Lemma string_length_app (a b : string) :
  String.length (a ++ b) = (String.length a + String.length b)%nat.
Proof. induction a as [|c a IH]; cbn [append String.length]; [reflexivity|now rewrite IH]. Qed.

Lemma string_app_assoc (a b c : string) : ((a ++ b) ++ c = a ++ (b ++ c))%string.
Proof. induction a as [|x a IH]; cbn [append]; [reflexivity|now rewrite IH]. Qed.

Lemma string_app_nil (a : string) : (a ++ "")%string = a.
Proof. induction a as [|x a IH]; cbn [append]; [reflexivity|now rewrite IH]. Qed.

Lemma substring_whole (n : nat) (s : string) :
  (String.length s <= n)%nat -> substring 0 n s = s.
Proof.
  revert n. induction s as [|c s IH]; intros [|n] H; cbn [String.length] in H;
    cbn [substring]; try reflexivity; try lia. f_equal. apply IH. lia.
Qed.

Lemma substring_app (n : nat) (a b : string) :
  substring 0 n (a ++ b)
  = (substring 0 n a ++ substring 0 (n - String.length a) b)%string.
Proof.
  revert n. induction a as [|c a IH]; intros n; cbn [append String.length].
  - rewrite Nat.sub_0_r. now destruct n.
  - destruct n as [|n]; cbn [substring append Nat.sub]; [now destruct b|].
    now rewrite IH.
Qed.

Lemma substring_length (n : nat) (s : string) :
  String.length (substring 0 n s) = Nat.min n (String.length s).
Proof.
  revert n. induction s as [|c s IH]; intros [|n]; cbn [substring String.length Nat.min];
    try reflexivity. now rewrite IH.
Qed.

Lemma stream_opened (name : string) (fs : FileSystem) :
  stream_state fs name EmptyString (put_file name EmptyString fs).
Proof.
  unfold stream_state, put_file. cbn [writable space contents String.length].
  rewrite String.eqb_refl, Nat.sub_0_r.
  repeat split; [now destruct (space fs)|].
  intros other H. apply String.eqb_neq in H. now rewrite H.
Qed.

Lemma stream_written (fs0 : FileSystem) (name written data : string) (fs : FileSystem) :
  stream_state fs0 name written fs ->
  stream_state fs0 name (written ++ data) (snd (write_bytes name data fs)).
Proof.
  intros (Hw & Hs & Hc & Ho). unfold stream_state, write_bytes. rewrite Hc.
  rewrite substring_app, string_length_app.
  destruct (Nat.leb (String.length data) (space fs)) eqn:Hfit;
    cbn [snd writable space contents]; rewrite String.eqb_refl.
  - apply Nat.leb_le in Hfit.
    repeat split; try assumption; try lia.
    + rewrite <- Hs. now rewrite (substring_whole _ _ Hfit).
    + intros other H. rewrite <- (Ho other H).
      apply String.eqb_neq in H. now rewrite H.
  - apply Nat.leb_gt in Hfit.
    repeat split; try assumption; try lia.
    + now rewrite <- Hs.
    + intros other H. rewrite <- (Ho other H).
      apply String.eqb_neq in H. now rewrite H.
Qed.

Lemma stream_pixels (fs0 : FileSystem) (name : string) (l : list Color.t) :
  forall written fs,
    stream_state fs0 name written fs ->
    stream_state fs0 name (written ++ pixel_bytes l)
      (fold_left (fun fs c => snd (write_bytes name (Image.binary c) fs)) l fs).
Proof.
  induction l as [|c l IH]; intros written fs H; cbn [fold_left pixel_bytes fold_right].
  - now rewrite string_app_nil.
  - rewrite <- string_app_assoc. apply IH. now apply stream_written.
Qed.

Lemma pixel_bytes_length (l : list Color.t) :
  String.length (pixel_bytes l) = (3 * List.length l)%nat.
Proof.
  induction l as [|c l IH]; [reflexivity|].
  cbn [pixel_bytes fold_right List.length]. rewrite string_length_app.
  fold (pixel_bytes l). rewrite IH. cbn [Image.binary String.length]. lia.
Qed.

Lemma save_effect (img : Image.t) (file_name : string) (fs : FileSystem) :
  let fs' := snd (snd (Image.save file_name (img, fs))) in
  (writable fs file_name = false -> fs' = fs)
  /\ (writable fs file_name = true ->
      contents fs' file_name = Some (substring 0 (space fs) (file_bytes img))
      /\ space fs' = (space fs - String.length (file_bytes img))%nat
      /\ (forall other, other <> file_name -> contents fs' other = contents fs other)
      /\ ((String.length (file_bytes img) <= space fs)%nat ->
          contents fs' file_name = Some (file_bytes img)))
  /\ String.length (file_bytes img)
     = (String.length (Image.header img) + 3 * List.length (Image.pixels img))%nat.
Proof.
  cbv zeta. unfold Image.save, fopen_wb.
  split; [|split].
  - now intros ->.
  - intros ->. cbn [snd].
    pose proof (stream_pixels fs file_name (Image.pixels img) _ _
                  (stream_written fs file_name EmptyString (Image.header img) _
                     (stream_opened file_name fs))) as (_ & Hs & Hc & Ho).
    cbn [append] in Hs, Hc. fold (file_bytes img) in Hs, Hc.
    repeat split; try assumption.
    intros Hroom. now rewrite Hc, substring_whole.
  - unfold file_bytes. now rewrite string_length_app, pixel_bytes_length.
Qed.

(** What [save] leaves behind.  When the file cannot be opened the file
    system is untouched.  When it can, the file holds the first [space]
    bytes of the header followed by three bytes per pixel - all of them if
    the device has room -, the room left shrinks by what was sent, and no
    other file changes. *)
Theorem save_writes_prefix (img : Image.t) (file_name : string) (fs : FileSystem) :
  let fs' := snd (snd (Image.save file_name (img, fs))) in
  (writable fs file_name = false -> fs' = fs)
  /\ (writable fs file_name = true ->
      contents fs' file_name = Some (substring 0 (space fs) (file_bytes img))
      /\ space fs' = (space fs - String.length (file_bytes img))%nat
      /\ (forall other, other <> file_name -> contents fs' other = contents fs other)
      /\ ((String.length (file_bytes img) <= space fs)%nat ->
          contents fs' file_name = Some (file_bytes img)))
  /\ String.length (file_bytes img)
     = (String.length (Image.header img) + 3 * List.length (Image.pixels img))%nat.
Proof. exact (save_effect img file_name fs). Qed.

(** The statement on a one-pixel image and a device with room for eight
    bytes: the file is the header cut after "P6 1 1 2". *)
Lemma save_writes_prefix_witness :
  contents
    (snd (snd (Image.save "out.ppm"
                 (Image.new 1 1, mkFileSystem (fun _ => true) 8 (fun _ => None)))))
    "out.ppm"%string
  = Some "P6 1 1 2"%string.
Proof.
  pose proof (save_writes_prefix (Image.new 1 1) "out.ppm"
                (mkFileSystem (fun _ => true) 8 (fun _ => None))) as H.
  cbv zeta in H. destruct H as (_ & H & _).
  destruct (H eq_refl) as (Hc & _). rewrite Hc. vm_compute. reflexivity.
Defined.

(** ** Image::save: the byte of a channel *)

Lemma binary_round_aux_signed (prec emax : Z) (s : bool) (m e : Z) (l : location) :
  0 <= m -> signed s (binary_round_aux prec emax s m e l).
Proof.
  intros H. unfold binary_round_aux.
  pose proof (shr_fexp_nonneg prec emax m e l H) as H1.
  destruct (shr_fexp prec emax m e l) as [mrs' e']. cbn [fst] in H1.
  pose proof (shr_fexp_nonneg prec emax _ e' loc_Exact
                (round_nearest_even_nonneg _ (loc_of_shr_record mrs') H1)) as H2.
  destruct (shr_fexp prec emax _ e' loc_Exact) as [mrs'' e'']. cbn [fst] in H2.
  destruct (shr_m mrs''); cbn [signed]; try reflexivity; [|lia].
  now destruct (e'' <=? emax - prec).
Qed.

Lemma binary_round_signed (prec emax : Z) (s : bool) (m : positive) (e : Z) :
  signed s (binary_round prec emax s m e).
Proof.
  unfold binary_round. destruct (shl_align _ _ _) as [mz ez].
  apply binary_round_aux_signed. lia.
Qed.

Lemma of_float_not_positive (c : float) :
  not_positive c = true ->
  exists s, signed s (F64.of_float c) /\ (s = true \/ exists s', F64.of_float c = S754_zero s').
Proof.
  destruct c as [s|[]| |[] m e]; cbn [not_positive F64.of_float]; try discriminate; intros _.
  - exists s. split; [reflexivity|right; now exists s].
  - exists true. split; [reflexivity|now left].
  - exists true. split; [apply binary_round_signed|now left].
Qed.

Lemma clamp_not_positive (x : double) :
  (signed true x \/ exists s, x = S754_zero s) ->
  F64.max F64.zero (F64.min (F64.of_Z 255) (F64.of_Z 255 * x)%f64) = F64.zero.
Proof.
  assert (E : F64.of_Z 255 = S754_finite false 8972014882652160 (-45))
    by (vm_compute; reflexivity).
  rewrite E. intros [H|[s ->]].
  - destruct x as [s|s| |s m e]; cbn [signed] in H; try contradiction; subst s.
    + reflexivity.
    + reflexivity.
    + unfold F64.mul, SFmul. cbn [xorb].
      pose proof (binary_round_aux_signed F64.prec F64.emax true
                    (Z.pos (8972014882652160 * m)) (-45 + e) loc_Exact) as Hs.
      lapply Hs; [clear Hs; intros Hs|lia].
      destruct (binary_round_aux F64.prec F64.emax true _ _ _) as [s|s| |s m' e'];
        cbn [signed] in Hs; try contradiction; subst s; reflexivity.
  - now destruct s.
Qed.

(** The byte [save] writes for a channel: 0 for a zero of either sign, for
    every negative number and for minus infinity; 255 for plus infinity -
    and 255 for a NaN, which [std::min(255.0, x)] passes over. *)
Theorem channel_edge_bytes (c : float) :
  (not_positive c = true -> Image.channel c = ascii_of_N 0)
  /\ (c = S754_infinity false -> Image.channel c = ascii_of_N 255)
  /\ (is_nan c = true -> Image.channel c = ascii_of_N 255).
Proof.
  split; [|split].
  - intros H. unfold Image.channel.
    destruct (of_float_not_positive c H) as (s & Hs & [->|[s' E]]).
    + now rewrite clamp_not_positive by now left.
    + rewrite clamp_not_positive; [reflexivity|right; now exists s'].
  - intros ->. vm_compute. reflexivity.
  - destruct c; try discriminate. intros _. vm_compute. reflexivity.
Qed.

Lemma channel_edge_bytes_witness :
  Image.channel (F32.of_Z (-3)) = ascii_of_N 0.
Proof.
  refine (proj1 (channel_edge_bytes (F32.of_Z (-3))) _). vm_compute. reflexivity.
Defined.

(** ** Vec3: dot and cross *)

Lemma SFmul_comm (prec emax : Z) (x y : spec_float) :
  SFmul prec emax x y = SFmul prec emax y x.
Proof.
  unfold SFmul.
  destruct x as [sx|sx| |sx mx ex], y as [sy|sy| |sy my ey]; try reflexivity;
    try (now rewrite (xorb_comm sx sy)).
  now rewrite (xorb_comm sx sy), (Pos.mul_comm mx my), (Z.add_comm ex ey).
Qed.

(** The dot product is commutative: [a.dot(b)] and [b.dot(a)] are the same
    float - same sign, exponent and mantissa, the same infinity, or both
    NaN ([spec_float] has one NaN; payloads are not modelled). *)
Theorem dot_commutative (a b : Vec3.t) : Vec3.dot a b = Vec3.dot b a.
Proof.
  unfold Vec3.dot, F32.mul.
  now rewrite (SFmul_comm _ _ (Vec3.x a)), (SFmul_comm _ _ (Vec3.y a)),
    (SFmul_comm _ _ (Vec3.z a)).
Qed.

Lemma SFeqb_refl (x : spec_float) : is_nan x = false -> SFeqb x x = true.
Proof.
  unfold SFeqb, SFcompare.
  destruct x as [s|[]| |[] m e]; try reflexivity; try discriminate; intros _;
    rewrite Z.compare_refl, Pos.compare_cont_refl; reflexivity.
Qed.

Lemma same_number_refl (x : float) : same_number x x.
Proof.
  unfold same_number. destruct (is_nan x) eqn:E; [now right|left].
  now apply SFeqb_refl.
Qed.

Lemma binary_round_aux_opp (prec emax : Z) (s : bool) (m e : Z) (l : location) :
  SFopp (binary_round_aux prec emax s m e l) = binary_round_aux prec emax (negb s) m e l.
Proof.
  unfold binary_round_aux.
  destruct (shr_fexp prec emax m e l) as [mrs' e'].
  destruct (shr_fexp prec emax _ e' loc_Exact) as [mrs'' e''].
  destruct (shr_m mrs''); try reflexivity.
  now destruct (e'' <=? emax - prec).
Qed.

Lemma binary_normalize_opp (prec emax : Z) (m e : Z) :
  m <> 0 ->
  SFopp (binary_normalize prec emax m e false) = binary_normalize prec emax (- m) e false.
Proof.
  destruct m as [|p|p]; [congruence| |]; intros _; cbn [binary_normalize Z.opp];
    unfold binary_round; destruct (shl_align _ _ _) as [mz ez];
    apply binary_round_aux_opp.
Qed.

(** [y - x] is [-(x - y)], up to the sign of a zero difference. *)
Lemma SFsub_antisym (prec emax : Z) (x y : spec_float) :
  same_number (SFsub prec emax y x) (SFopp (SFsub prec emax x y)).
Proof.
  destruct x as [sx|sx| |sx mx ex], y as [sy|sy| |sy my ey];
    try (right; split; reflexivity);
    try (destruct sx, sy; first [left; reflexivity | right; split; reflexivity]).
  - (* zero, finite *) cbn [SFsub SFopp]. rewrite Bool.negb_involutive.
    apply same_number_refl.
  - (* finite, zero *) cbn [SFsub SFopp]. apply same_number_refl.
  - (* finite, finite *)
    cbn [SFsub]. rewrite (Z.min_comm ey ex).
    set (ez := Z.min ex ey).
    set (A := cond_Zopp sx (Z.pos (fst (shl_align mx ex ez)))).
    set (B := cond_Zopp sy (Z.pos (fst (shl_align my ey ez)))).
    destruct (Z.eq_dec (A - B) 0) as [E|E].
    + replace (B - A) with 0 by lia. rewrite E. left. reflexivity.
    + rewrite (binary_normalize_opp prec emax (A - B) ez E).
      replace (- (A - B)) with (B - A) by lia. apply same_number_refl.
Qed.

(** With every product and difference rounded on its own, as in this
    embedding, the cross product is antisymmetric: [b x a] and [-(a x b)]
    are the same numbers in every component (a zero component may differ
    in sign).  A build that fuses a product into the subtraction is not
    covered. *)
Lemma cross_antisymmetric (a b : Vec3.t) :
  same_vector (Vec3.cross b a) (Vec3.neg (Vec3.cross a b)).
Proof.
  unfold same_vector, Vec3.cross, Vec3.neg, F32.sub, F32.mul, F32.opp.
  cbn [Vec3.x Vec3.y Vec3.z].
  rewrite (SFmul_comm _ _ (Vec3.y b)), (SFmul_comm _ _ (Vec3.z b) (Vec3.y a)),
    (SFmul_comm _ _ (Vec3.z b) (Vec3.x a)), (SFmul_comm _ _ (Vec3.x b)),
    (SFmul_comm _ _ (Vec3.x b) (Vec3.y a)), (SFmul_comm _ _ (Vec3.y b) (Vec3.x a)).
  repeat split; apply SFsub_antisym.
Qed.

(** ** Scene::intersect over a scene put together from two *)

Section Visit.
Variables o d : Vec3.t.

Lemma visit_choice (c : Intersection) (obj : Object) :
  Scene.visit o d c obj = c
  \/ F32.ltb (distance (Scene.visit o d c obj)) (distance c) = true.
Proof.
  unfold Scene.visit. destruct (Object_intersect obj o d) as [h|]; [|now left].
  destruct (F32.ltb (distance h) (distance c)) eqn:E; [now right|now left].
Qed.

Lemma visit_hit (c : Intersection) (obj : Object) (h : Intersection) :
  Object_intersect obj o d = Some h ->
  Scene.visit o d c obj = if F32.ltb (distance h) (distance c) then h else c.
Proof. unfold Scene.visit. now intros ->. Qed.

Lemma visit_miss (c : Intersection) (obj : Object) :
  Object_intersect obj o d = None -> Scene.visit o d c obj = c.
Proof. unfold Scene.visit. now intros ->. Qed.

(** The loop never moves away from the camera. *)
Lemma fold_decreasing (l : list Object) :
  forall c, fold_left (Scene.visit o d) l c = c \/ F32.ltb (distance (fold_left (Scene.visit o d) l c)) (distance c) = true.
Proof.
  induction l as [|obj l IH]; intros c; [now left|].
  cbn [fold_left].
  destruct (IH (Scene.visit o d c obj)) as [E|E], (visit_choice c obj) as [E'|E'].
  - left. now rewrite E, E'.
  - right. now rewrite E.
  - right. now rewrite E' in E |- *.
  - right. now apply SFltb_trans with (distance (Scene.visit o d c obj)).
Qed.

Lemma SFltb_eqb_r (x a b : spec_float) :
  SFeqb a b = true -> SFltb x a = SFltb x b.
Proof. unfold SFltb, SFeqb, SFcompare. order_by_cases. Qed.

Lemma SFltb_total (a b : spec_float) :
  is_nan a = false -> is_nan b = false ->
  SFltb a b = false -> SFltb b a = false -> SFeqb a b = true.
Proof.
  intros Ha Hb. unfold SFltb, SFeqb. rewrite (SFcompare_swap a b).
  destruct (SFcompare a b) as [[]|] eqn:E; cbn [option_map CompOpp]; try easy.
  apply SFcompare_nan in E. destruct E; congruence.
Qed.

(** From two records at the same distance the loop either keeps both or
    moves both to the same hit. *)
Lemma fold_from_equal (l : list Object) :
  forall a h, F32.eqb (distance a) (distance h) = true ->
    (fold_left (Scene.visit o d) l a = a /\ fold_left (Scene.visit o d) l h = h)
    \/ (fold_left (Scene.visit o d) l a = fold_left (Scene.visit o d) l h /\ F32.ltb (distance (fold_left (Scene.visit o d) l a)) (distance a) = true).
Proof.
  induction l as [|obj l IH]; intros a h E; [now left|].
  cbn [fold_left].
  destruct (Object_intersect obj o d) as [h'|] eqn:Hobj;
    [|rewrite !(visit_miss _ _ Hobj); now apply IH].
  rewrite (visit_hit a _ _ Hobj), (visit_hit h _ _ Hobj).
  unfold F32.ltb, F32.eqb in *.
  rewrite <- (SFltb_eqb_r (distance h') _ _ E).
  destruct (SFltb (distance h') (distance a)) eqn:Hlt; [|now apply IH].
  right. split; [reflexivity|].
  destruct (fold_decreasing l h') as [E'|E']; unfold F32.ltb in E'.
  - now rewrite E'.
  - now apply SFltb_trans with (distance h').
Qed.

(** Started from a record [a] that is nearer than [b], the loop ends where
    it ends from [b] if that is nearer than [a], and at [a] otherwise. *)
Lemma fold_from_nearer (l : list Object) :
  forall a b, F32.ltb (distance a) (distance b) = true ->
    fold_left (Scene.visit o d) l a = if F32.ltb (distance (fold_left (Scene.visit o d) l b)) (distance a) then fold_left (Scene.visit o d) l b else a.
Proof.
  induction l as [|obj l IH]; intros a b Hab.
  - cbn [fold_left]. unfold F32.ltb in *.
    now rewrite (SFleb_not_gtb _ _ (SFltb_leb _ _ Hab)).
  - cbn [fold_left].
    destruct (Object_intersect obj o d) as [h|] eqn:Hobj;
      [|rewrite !(visit_miss _ _ Hobj); now apply IH].
    rewrite (visit_hit a _ _ Hobj), (visit_hit b _ _ Hobj).
    unfold F32.ltb in *.
    destruct (SFltb (distance h) (distance a)) eqn:Ha.
    + rewrite (SFltb_trans _ _ _ Ha Hab).
      destruct (fold_decreasing l h) as [E|E]; unfold F32.ltb in E.
      * now rewrite E, Ha.
      * now rewrite (SFltb_trans _ _ _ E Ha).
    + destruct (SFltb (distance h) (distance b)) eqn:Hb; [|now apply IH].
      destruct (SFltb (distance a) (distance h)) eqn:Hah; [now apply IH|].
      assert (E : F32.eqb (distance a) (distance h) = true).
      { apply SFltb_total; try assumption; eapply SFltb_not_nan; eassumption. }
      destruct (fold_from_equal l a h E) as [[Ea Eh]|[Ea Hlt]];
        unfold F32.ltb in *.
      * now rewrite Ea, Eh, Ha.
      * now rewrite <- Ea, Hlt.
Qed.
End Visit.

(** The query over a scene whose shapes are those of one scene followed by
    those of another returns the nearer of the two scenes' results, the
    first scene's on equal distances; the lights play no part. *)
Theorem intersect_app (l1 l2 : list Object) (lights lights1 lights2 : list PointLight)
  (ray_origin ray_direction : Vec3.t) :
  Scene.intersect (Scene.mk (l1 ++ l2) lights) ray_origin ray_direction
  = nearer (Scene.intersect (Scene.mk l1 lights1) ray_origin ray_direction)
           (Scene.intersect (Scene.mk l2 lights2) ray_origin ray_direction).
Proof.
  unfold Scene.intersect, Scene.intersect_from. cbn [Scene.objects].
  rewrite fold_left_app.
  set (init := Scene.initial_hit Scene.indeterminate_material).
  assert (Hinit : F32.neqb (distance init) F32.max = false) by (vm_compute; reflexivity).
  destruct (fold_decreasing ray_origin ray_direction l1 init) as [E|E].
  - rewrite E, Hinit. reflexivity.
  - change (distance init) with F32.max in E.
    rewrite (fold_from_nearer ray_origin ray_direction l2 _ init E).
    set (a := fold_left (Scene.visit ray_origin ray_direction) l1 init) in *.
    set (r := fold_left (Scene.visit ray_origin ray_direction) l2 init) in *.
    unfold nearer, F32.neqb, F32.eqb, F32.ltb in *.
    rewrite (SFltb_not_eqb _ _ E). cbn [negb].
    destruct (SFltb (distance r) (distance a)) eqn:Hlt.
    + rewrite (SFltb_not_eqb _ _ (SFltb_trans _ _ _ Hlt E)). cbn [negb].
      now rewrite Hlt.
    + rewrite (SFltb_not_eqb _ _ E). cbn [negb].
      destruct (negb (SFeqb (distance r) F32.max)); [now rewrite Hlt|reflexivity].
Qed.

(** ** Scene::trace: escapes, matte scenes, degenerate rays *)

(** The allowance plays no part in the result once it exceeds the budget. *)
Lemma trace_fuel_irrelevant (s : Scene.t) (fuel1 : nat) :
  forall (fuel2 : nat) (o d : Vec3.t) (r : N),
    (N.to_nat r < fuel1)%nat -> (N.to_nat r < fuel2)%nat ->
    Scene.trace fuel1 s o d r = Scene.trace fuel2 s o d r.
Proof.
  induction fuel1 as [|fuel1 IH]; intros [|fuel2] o d r H1 H2; try lia.
  cbn [Scene.trace].
  destruct (Scene.intersect s o d) as [i|]; [|reflexivity].
  destruct (0 <? r)%N eqn:Hr; cbn [andb]; [|reflexivity].
  case_if; [|reflexivity].
  apply N.ltb_lt in Hr. pose proof (size_sub_1_lt r Hr).
  rewrite (IH fuel2) by lia. reflexivity.
Qed.

Lemma trace_escape (s : Scene.t) (fuel : nat)
  (ray_origin ray_direction : Vec3.t) (recursion : N)
  (Hfuel : (N.to_nat recursion < fuel)%nat) :
  Scene.trace fuel s ray_origin ray_direction recursion = Returned None
  <-> Scene.intersect s ray_origin ray_direction = None.
Proof.
  split.
  - intros Ht. destruct (Scene.intersect s ray_origin ray_direction) as [hit|] eqn:Hi;
      [|reflexivity].
    destruct (trace_returns_lit_albedo s fuel _ _ recursion hit Hi Hfuel) as [c Hc].
    congruence.
  - intros Hi. destruct fuel as [|fuel]; [lia|]. cbn [Scene.trace]. now rewrite Hi.
Qed.

(** [trace] returns no colour exactly when the ray it is given leaves the
    scene; a reflected ray that leaves the scene does not take the pixel
    with it. *)
Theorem trace_none_iff_escape (s : Scene.t) (fuel : nat)
  (ray_origin ray_direction : Vec3.t) (recursion : N)
  (Hfuel : (N.to_nat recursion < fuel)%nat) :
  Scene.trace fuel s ray_origin ray_direction recursion = Returned None
  <-> Scene.intersect s ray_origin ray_direction = None.
Proof. exact (trace_escape s fuel ray_origin ray_direction recursion Hfuel). Qed.

Lemma trace_none_iff_escape_witness :
  Scene.trace 11 (Scene.mk [OSphere sample_sphere] []) (vec3 0 0 (-10)) (vec3 0 0 (-1))
    Scene.max_recursion
  = Returned None.
Proof.
  refine (proj2 (trace_none_iff_escape (Scene.mk [OSphere sample_sphere] []) 11
                   (vec3 0 0 (-10)) (vec3 0 0 (-1)) Scene.max_recursion _) _).
  - vm_compute. lia.
  - vm_compute. reflexivity.
Defined.

Lemma intersect_material (s : Scene.t) (o d : Vec3.t) (h : Intersection) :
  Scene.intersect s o d = Some h ->
  exists obj, In obj (Scene.objects s) /\ material h = material_of obj.
Proof.
  intros Hh. pose proof (intersect_scanned s o d) as H. rewrite Hh in H.
  destruct H as (l1 & obj & l2 & E & Hobj & _).
  exists obj. split; [rewrite E; apply in_or_app; right; now left|].
  destruct obj as [p|sp]; cbn [Object_intersect material_of] in *.
  - now destruct (plane_hit _ _ _ _ Hobj) as (_ & Hm & _).
  - now destruct (sphere_hit _ _ _ _ Hobj) as (_ & Hm & _).
Qed.

(** In a scene none of whose materials has a reflectivity above zero,
    [trace] makes no recursive call: whatever the budget, it returns what
    the first activation computes with budget zero. *)
Theorem matte_scene_never_recurses (s : Scene.t) (fuel : nat)
  (ray_origin ray_direction : Vec3.t) (recursion : N)
  (Hmatte : matte s) :
  Scene.trace (S fuel) s ray_origin ray_direction recursion
  = Scene.trace 1 s ray_origin ray_direction 0
  /\ forall callee, ~ Scene.calls s (ray_origin, ray_direction, recursion) callee.
Proof.
  assert (Hgate : forall h, Scene.intersect s ray_origin ray_direction = Some h ->
                            reflects (material h) = false).
  { intros h Hh. destruct (intersect_material s _ _ h Hh) as (obj & Hin & ->).
    unfold matte in Hmatte. rewrite Forall_forall in Hmatte. now apply Hmatte. }
  split.
  - cbn [Scene.trace].
    destruct (Scene.intersect s ray_origin ray_direction) as [h|]; [|reflexivity].
    specialize (Hgate h eq_refl). unfold reflects in Hgate. rewrite Hgate.
    now rewrite andb_false_r.
  - intros callee H. inversion H as [? ? ? i Hi _ Hm]; subst.
    specialize (Hgate i Hi). unfold reflects in Hgate. congruence.
Qed.

Lemma matte_scene_never_recurses_witness :
  Scene.trace 11 signed_scene (vec3 0 0 (-10)) (vec3 0 0 1) Scene.max_recursion
  = Scene.trace 1 signed_scene (vec3 0 0 (-10)) (vec3 0 0 1) 0.
Proof.
  refine (proj1 (matte_scene_never_recurses signed_scene 10
                   (vec3 0 0 (-10)) (vec3 0 0 1) Scene.max_recursion _)).
  repeat constructor.
Defined.

Lemma plane_zero_direction (p : Plane.t) (ray_origin v : Vec3.t)
  (Hzero : zero_vector v) :
  Plane.intersect p ray_origin v = None.
Proof.
  destruct v as [vx vy vz], Hzero as ([sx Hx] & [sy Hy] & [sz Hz]).
  cbn [Vec3.x Vec3.y Vec3.z] in Hx, Hy, Hz. subst vx vy vz.
  unfold Plane.intersect, Vec3.dot. cbn [Vec3.x Vec3.y Vec3.z].
  destruct (Plane.normal p) as [nx ny nz]. cbn [Vec3.x Vec3.y Vec3.z].
  assert (Hmul : forall n s, exists r,
             F32.mul n (S754_zero s) = r
             /\ match r with S754_zero _ | S754_nan => True | _ => False end).
  { intros n s. eexists. split; [reflexivity|]. now destruct n. }
  destruct (Hmul nx sx) as (a & -> & Ha), (Hmul ny sy) as (b & -> & Hb),
    (Hmul nz sz) as (c & -> & Hc).
  destruct a as [[]|?| |? ? ?]; try contradiction;
  destruct b as [[]|?| |? ? ?]; try contradiction;
  destruct c as [[]|?| |? ? ?]; try contradiction; reflexivity.
Qed.

(** A ray whose direction is the zero vector - what [normalize] returns for
    a zero-length vector - hits no plane, whatever the plane. *)
Theorem plane_ignores_zero_direction (p : Plane.t) (ray_origin v : Vec3.t)
  (Hzero : zero_vector v) :
  Plane.intersect p ray_origin v = None.
Proof. exact (plane_zero_direction p ray_origin v Hzero). Qed.

Lemma plane_ignores_zero_direction_witness :
  Plane.intersect back_wall (vec3 0 0 (-10)) (Vec3.normalize Vec3.zero) = None.
Proof.
  refine (plane_ignores_zero_direction back_wall (vec3 0 0 (-10))
            (Vec3.normalize Vec3.zero) _).
  repeat split; exists false; vm_compute; reflexivity.
Defined.

(** ** The frame loop of main *)

Lemma for_range_invariant {S : Type} (P : nat -> S -> Prop) (n : N)
  (body : N -> S -> S) (s : S) :
  P 0%nat s ->
  (forall k st, (k < N.to_nat n)%nat -> P k st -> P (Datatypes.S k) (body (N.of_nat k) st)) ->
  P (N.to_nat n) (for_range n body s).
Proof.
  intros H0 Hstep. unfold for_range.
  assert (H : forall m, (m <= N.to_nat n)%nat ->
                        P m (fold_left (fun st i => body (N.of_nat i) st) (seq 0 m) s)).
  { induction m as [|m IH]; intros Hm; [exact H0|].
    rewrite seq_S, fold_left_app. cbn [fold_left Nat.add]. apply Hstep; [lia|].
    apply IH. lia. }
  apply H. lia.
Qed.

Lemma render_pixel_set (scene : Scene.t) (camera : Camera.t) (x y : N) (t : Image.t) :
  render_pixel scene camera x y t
  = Image.set t x y (traced_color scene camera (Image.width t) (Image.height t) x y).
Proof.
  unfold render_pixel, traced_color.
  match goal with
  | |- context [Scene.trace 11 scene ?o ?d ?r] =>
      destruct (Scene.trace 11 scene o d r) as [|[c|]]
  end; reflexivity.
Qed.

(** Inside the raster the buffer position of (x, y) is [y * width + x]. *)
Lemma raster_index (w h x y : N) :
  (w * h < size_max)%N -> (x < w)%N -> (y < h)%N ->
  N.to_nat (size_add (size_mul y w) x) = (N.to_nat y * N.to_nat w + N.to_nat x)%nat.
Proof.
  intros Hsize Hx Hy. unfold size_add, size_mul.
  assert (Hlt : (y * w + x < size_max)%N) by nia.
  rewrite (N.mod_small (y * w)) by nia. rewrite N.mod_small by exact Hlt. lia.
Qed.

Section FrameLoop.
Variables (scene : Scene.t) (camera : Camera.t) (t0 : Image.t).
Hypothesis Hsize : (Image.width t0 * Image.height t0 < size_max)%N.
Hypothesis Hbuf :
  List.length (Image.pixels t0) = N.to_nat (Image.width t0 * Image.height t0).

Lemma row_loop (y : N) (t : Image.t) :
  (y < Image.height t0)%N ->
  Image.width t = Image.width t0 ->
  Image.height t = Image.height t0 ->
  List.length (Image.pixels t) = List.length (Image.pixels t0) ->
  let t' := for_range (Image.width t) (fun x => render_pixel scene camera x y) t in
  let W := N.to_nat (Image.width t0) in
  Image.width t' = Image.width t0
  /\ Image.height t' = Image.height t0
  /\ List.length (Image.pixels t') = List.length (Image.pixels t0)
  /\ (forall j, (j < W)%nat ->
        nth (N.to_nat y * W + j) (Image.pixels t') (Color.gray F32.zero)
        = traced_color scene camera (Image.width t0) (Image.height t0) (N.of_nat j) y)
  /\ (forall i, (i < N.to_nat y * W \/ N.to_nat y * W + W <= i)%nat ->
        nth i (Image.pixels t') (Color.gray F32.zero)
        = nth i (Image.pixels t) (Color.gray F32.zero)).
Proof.
  intros Hy Hw Hh Hlen. cbv zeta. rewrite Hw.
  pose proof (for_range_invariant
                (fun k st =>
                   Image.width st = Image.width t0
                   /\ Image.height st = Image.height t0
                   /\ List.length (Image.pixels st) = List.length (Image.pixels t0)
                   /\ (forall j, (j < k)%nat ->
                         nth (N.to_nat y * N.to_nat (Image.width t0) + j)
                             (Image.pixels st) (Color.gray F32.zero)
                         = traced_color scene camera (Image.width t0) (Image.height t0)
                             (N.of_nat j) y)
                   /\ (forall i, (i < N.to_nat y * N.to_nat (Image.width t0)
                                  \/ N.to_nat y * N.to_nat (Image.width t0) + k <= i)%nat ->
                         nth i (Image.pixels st) (Color.gray F32.zero)
                         = nth i (Image.pixels t) (Color.gray F32.zero)))
                (Image.width t0) (fun x => render_pixel scene camera x y) t) as H.
  cbv beta in H. apply H; clear H.
  - repeat split; try assumption. intros j Hj. lia.
  - intros k st Hk (Hw' & Hh' & Hlen' & Hrow & Hrest).
    rewrite render_pixel_set, Hw', Hh'. unfold Image.set.
    cbn [Image.width Image.height Image.pixels]. rewrite Hw'.
    rewrite (raster_index _ _ (N.of_nat k) y Hsize) by lia. rewrite Nat2N.id.
    assert (Hin : (N.to_nat y * N.to_nat (Image.width t0) + k
                   < List.length (Image.pixels st))%nat).
    { rewrite Hlen', Hbuf. nia. }
    split; [reflexivity|]. split; [exact Hh'|].
    split; [now rewrite update_length|]. split.
    + intros j Hj. destruct (Nat.eq_dec j k) as [->|Hne].
      * now rewrite nth_update_same.
      * rewrite nth_update_other by lia. apply Hrow. lia.
    + intros i Hi. rewrite nth_update_other by lia. apply Hrest. lia.
Qed.

Lemma rows_loop :
  rows_done scene camera t0 (N.to_nat (Image.height t0)) (render scene camera t0).
Proof.
  unfold render.
  apply (for_range_invariant (rows_done scene camera t0)).
  - unfold rows_done. repeat split. intros y x Hy. lia.
  - intros k t Hk (Hw & Hh & Hlen & Hdone & Hrest). cbv zeta in Hdone, Hrest.
    destruct (row_loop (N.of_nat k) t) as (Hw' & Hh' & Hlen' & Hrow & Hout);
      try assumption; [lia|].
    cbv zeta in Hrow, Hout. rewrite Nat2N.id in Hrow, Hout.
    rewrite <- Hw in *.
    unfold rows_done. rewrite <- Hw. repeat split; try assumption.
    + intros y x Hy Hx. destruct (Nat.eq_dec y k) as [->|Hne].
      * now apply Hrow.
      * rewrite Hout by nia. apply Hdone; lia.
    + intros i Hi. rewrite Hout by nia. apply Hrest. nia.
Qed.

Lemma render_get (x y : N) :
  (x < Image.width t0)%N -> (y < Image.height t0)%N ->
  Image.get (render scene camera t0) x y
  = traced_color scene camera (Image.width t0) (Image.height t0) x y.
Proof.
  intros Hx Hy. destruct rows_loop as (Hw & _ & _ & Hdone & _). cbv zeta in Hdone.
  unfold Image.get. rewrite Hw.
  rewrite (raster_index _ _ x y Hsize Hx Hy).
  rewrite (Hdone (N.to_nat y) (N.to_nat x)) by lia.
  now rewrite !N2Nat.id.
Qed.

(** The frame loop gives every pixel of the raster the colour traced for
    it, whatever the image held before, and keeps the dimensions and the
    size of the buffer. *)
Theorem render_fills_raster :
  Image.width (render scene camera t0) = Image.width t0
  /\ Image.height (render scene camera t0) = Image.height t0
  /\ List.length (Image.pixels (render scene camera t0)) = List.length (Image.pixels t0)
  /\ forall x y, (x < Image.width t0)%N -> (y < Image.height t0)%N ->
       Image.get (render scene camera t0) x y
       = traced_color scene camera (Image.width t0) (Image.height t0) x y.
Proof.
  destruct rows_loop as (Hw & Hh & Hlen & _).
  split; [exact Hw|]. split; [exact Hh|]. split; [exact Hlen|].
  exact render_get.
Qed.
End FrameLoop.

(** The statement on a raster of two by two pixels. *)
Lemma render_fills_raster_witness :
  Image.get (render reference_scene reference_camera (Image.new 2 2)) 1 1
  = traced_color reference_scene reference_camera 2 2 1 1.
Proof.
  refine (proj2 (proj2 (proj2
            (render_fills_raster reference_scene reference_camera (Image.new 2 2) _ _)))
            1%N 1%N _ _); vm_compute; reflexivity.
Defined.

(** A scene without shapes renders black: whatever the lights, the camera
    and the previous contents of the image, every pixel of the raster ends
    as [Color(0)]. *)
Theorem empty_scene_renders_black (lights : list PointLight) (camera : Camera.t)
  (t0 : Image.t) (x y : N)
  (Hsize : (Image.width t0 * Image.height t0 < size_max)%N)
  (Hbuf : List.length (Image.pixels t0)
          = N.to_nat (Image.width t0 * Image.height t0))
  (Hx : (x < Image.width t0)%N) (Hy : (y < Image.height t0)%N) :
  Image.get (render (Scene.mk [] lights) camera t0) x y = Color.gray (F32.of_Z 0).
Proof.
  rewrite (render_get (Scene.mk [] lights) camera t0 Hsize Hbuf x y Hx Hy).
  unfold traced_color.
  match goal with
  | |- context [Scene.trace 11 ?s ?o ?d ?r] =>
      assert (E : Scene.trace 11 s o d r = Returned None)
  end.
  { apply trace_escape; [vm_compute; lia|]. reflexivity. }
  now rewrite E.
Qed.

Lemma empty_scene_renders_black_witness :
  Image.get (render (Scene.mk [] (Scene.lights reference_scene)) reference_camera
               (Image.new 3 2)) 2 1
  = Color.gray (F32.of_Z 0).
Proof.
  refine (empty_scene_renders_black (Scene.lights reference_scene) reference_camera
            (Image.new 3 2) 2 1 _ _ _ _); vm_compute; reflexivity.
Defined.

(** ** main: the file it writes *)

Lemma framed_shape (f : Color.t -> Color.t) (scene : Scene.t) (camera : Camera.t)
  (w h : N) (color : Color.t) :
  (w * h < size_max)%N ->
  let out := Image.apply f (render scene camera (Image.clear (Image.new w h) color)) in
  Image.width out = w
  /\ Image.height out = h
  /\ List.length (Image.pixels out) = N.to_nat (w * h).
Proof.
  intros Hsize out.
  assert (Hlen : List.length (Image.pixels (Image.clear (Image.new w h) color))
                 = N.to_nat (w * h)).
  { unfold Image.clear. cbn [Image.pixels]. rewrite length_map.
    rewrite (proj1 (new_pixels w h)). unfold size_mul.
    now rewrite N.mod_small. }
  destruct (rows_loop scene camera (Image.clear (Image.new w h) color) Hsize Hlen)
    as (Hw & Hh & Hlen' & _).
  subst out. unfold Image.apply. cbn [Image.width Image.height Image.pixels].
  rewrite length_map, Hw, Hh, Hlen', Hlen.
  split; [reflexivity|split; reflexivity].
Qed.

Lemma rendered_shape (powf : float -> float -> float) :
  Image.width (rendered powf) = 512%N
  /\ Image.height (rendered powf) = 512%N
  /\ List.length (Image.pixels (rendered powf)) = N.to_nat (512 * 512).
Proof.
  unfold rendered. apply framed_shape. vm_compute. reflexivity.
Qed.

(** Where [output.pgm] can be opened and the device has room for 786447
    bytes, [main] returns 0 and leaves in it the header [P6 512 512 255]
    and a newline, followed by three bytes for each of the 262144 pixels,
    786447 bytes in all; no other file changes. *)
Theorem main_writes_frame (powf : float -> float -> float) (fs : FileSystem)
  (Hopen : writable fs "output.pgm" = true)
  (Hroom : (786447 <= N.of_nat (space fs))%N) :
  fst (main powf fs) = 0
  /\ contents (snd (main powf fs)) "output.pgm"%string
     = Some (file_bytes (rendered powf))
  /\ Image.header (rendered powf) = ("P6 512 512 255" ++ newline)%string
  /\ N.of_nat (String.length (file_bytes (rendered powf))) = 786447%N
  /\ (forall other, other <> "output.pgm"%string ->
        contents (snd (main powf fs)) other = contents fs other).
Proof.
  destruct (rendered_shape powf) as (Hw & Hh & Hlen).
  assert (Hhead : Image.header (rendered powf) = ("P6 512 512 255" ++ newline)%string).
  { unfold Image.header. now rewrite Hw, Hh. }
  pose proof (save_effect (rendered powf) "output.pgm" fs) as Hsave.
  cbv zeta in Hsave. destruct Hsave as (_ & Hsave & Hsize).
  destruct (Hsave Hopen) as (_ & _ & Hother & Hfull).
  assert (Hbytes : N.of_nat (String.length (file_bytes (rendered powf))) = 786447%N).
  { rewrite Hsize, Hhead, Hlen.
    change (String.length ("P6 512 512 255" ++ newline)) with 15%nat.
    change (512 * 512)%N with 262144%N. lia. }
  assert (E : snd (main powf fs)
              = snd (snd (Image.save "output.pgm" (rendered powf, fs)))).
  { unfold main.
    now destruct (Image.save "output.pgm" (rendered powf, fs)) as [b [img fs']]. }
  rewrite E. split; [apply main_returns_zero|].
  split; [apply Hfull; lia|].
  split; [exact Hhead|split; [exact Hbytes|exact Hother]].
Qed.

Lemma main_writes_frame_witness :
  N.of_nat (String.length (file_bytes (rendered (fun c _ => c)))) = 786447%N
  /\ fst (main (fun c _ => c) roomy_fs) = 0.
Proof.
  assert (H : (786447 <= N.of_nat (space roomy_fs))%N)
    by (unfold roomy_fs; cbn [space]; lia).
  destruct (main_writes_frame (fun c _ => c) roomy_fs eq_refl H) as (H0 & _ & _ & Hn & _).
  split; assumption.
Defined.

(** ** Camera: looking at one's own position *)

Lemma zero_mul_l (a b : float) : is_zero a -> finite_number b -> is_zero (a * b)%f32.
Proof. intros [s ->]. destruct b as [sb|sb| |sb m e]; try contradiction; intros _; now eexists. Qed.

Lemma zero_mul_r (a b : float) : finite_number a -> is_zero b -> is_zero (a * b)%f32.
Proof. intros Ha [s ->]. destruct a as [sa|sa| |sa m e]; try contradiction; now eexists. Qed.

Lemma zero_add (a b : float) : is_zero a -> is_zero b -> is_zero (a + b)%f32.
Proof. intros [[] ->] [[] ->]; now eexists. Qed.

Lemma zero_sub (a b : float) : is_zero a -> is_zero b -> is_zero (a - b)%f32.
Proof. intros [[] ->] [[] ->]; now eexists. Qed.

Lemma is_zero_finite (a : float) : is_zero a -> finite_number a.
Proof. now intros [s ->]. Qed.

Lemma SFsub_diag (x : float) : finite_number x -> (x - x)%f32 = F32.zero.
Proof.
  destruct x as [[]|s| |s m e]; try contradiction; intros _; try reflexivity.
  unfold F32.sub. cbn [SFsub]. rewrite Z.min_id, Z.sub_diag. reflexivity.
Qed.

(** [normalize] hands a vector of zeros back as it is: no division by a
    zero length takes place. *)
Lemma normalize_zero_vector (v : Vec3.t) : zero_vector v -> Vec3.normalize v = v.
Proof.
  destruct v as [vx vy vz]. intros ([sx Hx] & [sy Hy] & [sz Hz]).
  cbn [Vec3.x Vec3.y Vec3.z] in Hx, Hy, Hz. subst.
  now destruct sx, sy, sz.
Qed.

(** A camera told to look at its own position has a zero forward vector
    and a zero right vector, and sends every ray in the zero direction -
    never a NaN -, so no ray of it hits a plane. *)
Theorem camera_looking_at_itself (c : Camera.t) (pos up : Vec3.t) (x y : float)
  (Hpos : finite_vector pos) (Hup : finite_vector up)
  (Hx : finite_number x) (Hy : finite_number y)
  (Hfocal : finite_number (Camera.focal_length c)) :
  let cam := Camera.lookAt c pos pos up in
  Camera.forward cam = Vec3.zero
  /\ zero_vector (Camera.right cam)
  /\ zero_vector (Camera.projectRay cam x y)
  /\ forall p ray_origin,
       Plane.intersect p ray_origin (Camera.projectRay cam x y) = None.
Proof.
  cbv zeta.
  assert (Hfwd : Vec3.normalize (Vec3.sub pos pos) = Vec3.zero).
  { destruct Hpos as (H1 & H2 & H3). unfold Vec3.sub.
    rewrite (SFsub_diag _ H1), (SFsub_diag _ H2), (SFsub_diag _ H3).
    apply (normalize_zero_vector Vec3.zero). repeat split; now exists false. }
  assert (Hz : is_zero F32.zero) by now exists false.
  assert (Hright : zero_vector (Vec3.normalize (Vec3.cross up Vec3.zero))).
  { destruct Hup as (H1 & H2 & H3).
    assert (Hc : zero_vector (Vec3.cross up Vec3.zero)).
    { unfold Vec3.cross, Vec3.zero. cbn [Vec3.x Vec3.y Vec3.z].
      repeat split; apply zero_sub; first [now apply zero_mul_r | now apply zero_mul_l]. }
    now rewrite (normalize_zero_vector _ Hc). }
  unfold Camera.lookAt. cbn [Camera.forward Camera.right]. rewrite Hfwd.
  split; [reflexivity|]. split; [exact Hright|].
  assert (Hray : zero_vector
                   (Camera.projectRay
                      (Camera.mk pos Vec3.zero
                         (Vec3.normalize (Vec3.cross up Vec3.zero))
                         (Camera.focal_length c)) x y)).
  { unfold Camera.projectRay. cbn [Camera.forward Camera.right Camera.focal_length].
    destruct Hright as (R1 & R2 & R3).
    set (r := Vec3.normalize (Vec3.cross up Vec3.zero)) in *.
    assert (Hsum : zero_vector
              (Vec3.add
                 (Vec3.add (Vec3.scale r x) (Vec3.scale (Vec3.cross Vec3.zero r) y))
                 (Vec3.scale Vec3.zero (Camera.focal_length c)))).
    { unfold Vec3.add, Vec3.scale, Vec3.cross, Vec3.zero. cbn [Vec3.x Vec3.y Vec3.z].
      repeat split;
        (apply zero_add; [apply zero_add|]);
        try (apply zero_mul_l; [|assumption]);
        try (apply zero_sub; apply zero_mul_l; try assumption; now apply is_zero_finite);
        assumption. }
    now rewrite (normalize_zero_vector _ Hsum). }
  split; [exact Hray|].
  intros p o. now apply plane_zero_direction.
Qed.

Lemma camera_looking_at_itself_witness :
  zero_vector
    (Camera.projectRay
       (Camera.lookAt Camera.default (vec3 0 0 (-10)) (vec3 0 0 (-10)) (vec3 0 1 0))
       (F32.of_Z 1) (F32.of_Z (-1))).
Proof.
  refine (proj1 (proj2 (proj2
            (camera_looking_at_itself Camera.default (vec3 0 0 (-10)) (vec3 0 1 0)
               (F32.of_Z 1) (F32.of_Z (-1)) _ _ _ _ _))));
    vm_compute; auto.
Defined.
